(** * The unspent-output pool of [src/visor/blockdb/unspent.go]

    A shallow embedding of the pool: the in-memory cache (a Go
    [map[string]coin.UxOut] keyed by the hex rendering of the output id,
    plus the cached XOR checksum), the mutex embedded in the pool, the two
    bolt buckets it reads and writes through a transaction, and the
    block-application protocol with its undo closure.

    Go code that blocks or dies is visible in the model: every method is a
    computation over the pool state whose outcome is a return, a goroutine
    parked on the held mutex, or a run-time panic. *)

From Stdlib Require Import NArith Strings.String Strings.HexString.
From stdpp Require Import base option list gmap fin_maps strings.

(** ** Values of the [cipher] and [coin] packages *)

(** [cipher.SHA256] is a [[32]byte] array; it is kept as the 256-bit number
    its bytes spell.  [cipher.SHA256{}] is the all-zero array and [Xor]
    is bytewise exclusive or. *)
Definition SHA256 : Type := N.
Definition SHA256_zero : SHA256 := 0%N.
Definition Xor (g b : SHA256) : SHA256 := N.lxor g b.

(** [cipher.Address] is only ever compared for equality here. *)
Definition Address : Type := N.

Definition bytes : Type := list Byte.byte.

(** Go's [error]: the message it carries; a nil error is [None]. *)
Definition error : Type := string.

(** Modelled from the spec: [coin.UxOut] is declared in package [coin];
    section 3 of the specification lists its fields (owner address, coins,
    hours, creation time and block, source transaction). *)
Record UxHead := mkUxHead { Time : N; BkSeq : N }.
Record UxBody := mkUxBody {
  SrcTransaction : SHA256; BodyAddress : Address; Coins : N; Hours : N }.
Record UxOut := mkUxOut { Head : UxHead; Body : UxBody }.

(** The zero value Go hands back when a map read misses. *)
Definition UxOut_zero : UxOut :=
  mkUxOut (mkUxHead 0 0) (mkUxBody SHA256_zero 0%N 0 0).

(** Modelled from the spec: a block is an ordered sequence of transactions,
    each naming the output ids it consumes; the records a transaction
    creates are derived outside the pool ([coin.CreateUnspents]). *)
Record TransactionOutput := mkTransactionOutput {
  OutAddress : Address; OutCoins : N; OutHours : N }.
Record Transaction := mkTransaction {
  In : list SHA256; Out : list TransactionOutput }.
Record BlockHeader := mkBlockHeader { BlockTime : N; BlockSeq : N }.
Record BlockBody := mkBlockBody { Transactions : list Transaction }.
Record Block := mkBlock { BlockHead : BlockHeader; BlockBody_ : BlockBody }.

(** ** The bolt store *)

(** Modelled from the spec: the durable store is a transactional key-value
    store with named regions.  A transaction sees the output region
    (bucket [unspent_pool]: id to serialized record) and the meta region
    (bucket [unspent_meta]: the checksum under the key [xorhash]).  Reads
    never fail; a write fails when the transaction is not writable. *)
Record Tx := mkTx {
  writable : bool;
  unspent_pool : gmap SHA256 bytes;
  unspent_meta : gmap string SHA256 }.

Definition xorhashKey : string := "xorhash".
Definition ErrTxNotWritable : error := "tx not writable".

Definition pool_Put (tx : Tx) (k : SHA256) (v : bytes) : Tx * option error :=
  if writable tx
  then (mkTx (writable tx) (<[k:=v]> (unspent_pool tx)) (unspent_meta tx), None)
  else (tx, Some ErrTxNotWritable).

Definition pool_Delete (tx : Tx) (k : SHA256) : Tx * option error :=
  if writable tx
  then (mkTx (writable tx) (delete k (unspent_pool tx)) (unspent_meta tx), None)
  else (tx, Some ErrTxNotWritable).

Definition meta_Put (tx : Tx) (k : string) (v : SHA256) : Tx * option error :=
  if writable tx
  then (mkTx (writable tx) (unspent_pool tx) (<[k:=v]> (unspent_meta tx)), None)
  else (tx, Some ErrTxNotWritable).

(** Modelled from the spec: the database the pool is attached to; its two
    regions as last committed.  Attaching to a region ([bucket.New]) fails
    when the store cannot be opened. *)
Record DB := mkDB {
  db_opened : bool;
  db_unspent_pool : gmap SHA256 bytes;
  db_unspent_meta : gmap string SHA256 }.

Definition ErrDatabaseNotOpen : error := "database not open".

Definition bucket_New (name : string) (db : DB) : option error :=
  if db_opened db then None else Some ErrDatabaseNotOpen.

(** ** The pool and its computations *)

(** [UnspentPool]: the database handle, the cache ([cache.pool],
    [cache.uxhash]) and the embedded [sync.Mutex] ([true] when held). *)
Record UnspentPool := mkUnspentPool {
  db : DB;
  cache_pool : gmap string UxOut;
  cache_uxhash : SHA256;
  mutex : bool }.

Inductive Outcome (A : Type) : Type :=
| Returns (a : A) (up : UnspentPool)
| Blocked
| Panics (msg : string).
Arguments Returns {A} a up.
Arguments Blocked {A}.
Arguments Panics {A} msg.

Definition M (A : Type) : Type := UnspentPool → Outcome A.

#[global] Instance M_ret : MRet M := λ A a up, Returns a up.
#[global] Instance M_bind : MBind M := λ A B f c up,
  match c up with
  | Returns a up' => f a up'
  | Blocked => Blocked
  | Panics msg => Panics msg
  end.

Definition gets {A} (f : UnspentPool → A) : M A := λ up, Returns (f up) up.
Definition modify (f : UnspentPool → UnspentPool) : M unit :=
  λ up, Returns tt (f up).

Definition set_cache_pool (f : gmap string UxOut → gmap string UxOut)
    (up : UnspentPool) : UnspentPool :=
  mkUnspentPool (db up) (f (cache_pool up)) (cache_uxhash up) (mutex up).
Definition set_cache_uxhash (h : SHA256) (up : UnspentPool) : UnspentPool :=
  mkUnspentPool (db up) (cache_pool up) h (mutex up).
Definition set_mutex (b : bool) (up : UnspentPool) : UnspentPool :=
  mkUnspentPool (db up) (cache_pool up) (cache_uxhash up) b.

(** [sync.Mutex]: [Lock] on a held mutex parks the caller until somebody
    else unlocks; [Unlock] of a free mutex is a fatal runtime error. *)
Definition Lock : M unit := λ up,
  if mutex up then Blocked else Returns tt (set_mutex true up).
Definition Unlock : M unit := λ up,
  if mutex up then Returns tt (set_mutex false up)
  else Panics "sync: unlock of unlocked mutex".

(** Go's two-valued map read [v, ok := m[k]]. *)
Definition map_index (m : gmap string UxOut) (k : string) : UxOut * bool :=
  match m !! k with
  | Some ux => (ux, true)
  | None => (UxOut_zero, false)
  end.

(** A Go [range] over a map visits the entries in an unspecified order;
    the model visits them in the order of [map_to_list]. *)
Definition range_values (m : gmap string UxOut) : list UxOut :=
  (map_to_list m).*2.

(** What the pool takes from other packages: the hex rendering of an id
    ([cipher.SHA256.Hex]), the two digests of a record ([coin.UxOut.Hash],
    [coin.UxOut.SnapshotHash]), the binary codec ([encoder]) and the
    derivation of a transaction's new outputs ([coin.CreateUnspents]). *)
Class Externals := {
  Hex : SHA256 → string;
  Hash : UxOut → SHA256;
  SnapshotHash : UxOut → SHA256;
  Serialize : UxOut → bytes;
  DeserializeRaw : bytes → UxOut + error;
  CreateUnspents : BlockHeader → Transaction → list UxOut }.

Section Pool.

Context `{Externals}.

(** *** Typed views of the two buckets *)

Definition getXorHash (tx : Tx) : SHA256 * option error :=
  match unspent_meta tx !! xorhashKey with
  | Some v => (v, None)
  | None => (SHA256_zero, None)
  end.

Definition setXorHash (tx : Tx) (hash : SHA256) : Tx * option error :=
  meta_Put tx xorhashKey hash.

Definition uxOuts_get (tx : Tx) (hash : SHA256)
    : option UxOut * bool * option error :=
  match unspent_pool tx !! hash with
  | Some v =>
      match DeserializeRaw v with
      | inr err => (None, false, Some err)
      | inl out => (Some out, true, None)
      end
  | None => (None, false, None)
  end.

Definition uxOuts_set (tx : Tx) (hash : SHA256) (ux : UxOut)
    : Tx * option error :=
  let v := Serialize ux in
  pool_Put tx hash v.

Definition uxOuts_delete (tx : Tx) (hash : SHA256) : Tx * option error :=
  pool_Delete tx hash.

(** *** Construction *)

Definition getUxHashFromDB : M (SHA256 * option error) :=
  up_db ← gets db;
  match db_unspent_meta up_db !! xorhashKey with
  | Some v => mret (v, None)
  | None => mret (SHA256_zero, None)
  end.

(** The callback of [ForEach] in [syncCache], run over the entries of the
    output region; the first failing entry ends the scan. *)
Fixpoint syncCache_ForEach (kvs : list (SHA256 * bytes)) : M (option error) :=
  match kvs with
  | [] => mret None
  | (k, v) :: rest =>
      let hash := k in
      match DeserializeRaw v with
      | inr err =>
          mret (Some ("load unspent outputs from db failed: " +:+ err))
      | inl ux =>
          modify (set_cache_pool (λ m, <[Hex hash := ux]> m));;
          syncCache_ForEach rest
      end
  end.

Definition syncCache : M (option error) :=
  up_db ← gets db;
  err ← syncCache_ForEach (map_to_list (db_unspent_pool up_db));
  match err with
  | Some e => mret (Some e)
  | None =>
      '(uxhash, err) ← getUxHashFromDB;
      match err with
      | Some e => mret (Some e)
      | None => modify (set_cache_uxhash uxhash);; mret None
      end
  end.

Definition NewUnspentPool (d : DB) : Outcome (option UnspentPool * option error) :=
  let up := mkUnspentPool d ∅ SHA256_zero false in
  match bucket_New "unspent_pool" d with
  | Some err => Returns (None, Some err) up
  | None =>
      match bucket_New "unspent_meta" d with
      | Some err => Returns (None, Some err) up
      | None =>
          match syncCache up with
          | Returns (Some err) up' => Returns (None, Some err) up'
          | Returns None up' => Returns (Some up', None) up'
          | Blocked => Blocked
          | Panics msg => Panics msg
          end
      end
  end.

(** *** Cache updates *)

Definition deleteUxFromCache (uxs : list UxOut) : M unit :=
  modify (set_cache_pool (λ m,
    foldl (λ m ux, delete (Hex (Hash ux)) m) m uxs)).

Definition addUxToCache (uxs : list UxOut) : M unit :=
  modify (set_cache_pool (λ m,
    foldl (λ m ux, <[Hex (Hash ux) := ux]> m) m uxs)).

Definition updateUxHashInCache (hash : SHA256) : M unit :=
  modify (set_cache_uxhash hash).

(** *** Queries *)

Fixpoint getArray_loop (m : gmap string UxOut) (hashes : list SHA256)
    (uxs : list UxOut) : list UxOut * option error :=
  match hashes with
  | [] => (uxs, None)
  | h :: rest =>
      let '(ux, ok) := map_index m (Hex h) in
      if negb ok
      then ([], Some ("unspent output of " +:+ Hex h +:+ " does not exist"))
      else getArray_loop m rest (uxs ++ [ux])
  end.

Definition getArray (hashes : list SHA256) : M (list UxOut * option error) :=
  gets (λ up, getArray_loop (cache_pool up) hashes []).

Definition GetArray (hashes : list SHA256) : M (list UxOut * option error) :=
  Lock;;
  r ← getArray hashes;
  Unlock;;
  mret r.

Definition Get (h : SHA256) : M (UxOut * bool) :=
  Lock;;
  '(ux, ok) ← gets (λ up, map_index (cache_pool up) (Hex h));
  Unlock;;
  mret (ux, ok).

Definition GetAll : M (list UxOut * option error) :=
  Lock;;
  arr ← gets (λ up, foldl (λ arr ux, arr ++ [ux]) [] (range_values (cache_pool up)));
  Unlock;;
  mret (arr, None).

Definition Len : M N :=
  Lock;;
  n ← gets (λ up, N.of_nat (size (cache_pool up)));
  Unlock;;
  mret n.

(** [Collides] has no [defer]: the early [return true] leaves the loop and
    the method without reaching [up.Unlock()]. *)
Fixpoint Collides_loop (hashes : list SHA256) : M bool :=
  match hashes with
  | [] => Unlock;; mret false
  | h :: rest =>
      '(_, ok) ← gets (λ up, map_index (cache_pool up) (Hex h));
      if ok : bool then mret true else Collides_loop rest
  end.

Definition Collides (hashes : list SHA256) : M bool :=
  Lock;;
  Collides_loop hashes.

Definition Contains (h : SHA256) : M bool :=
  Lock;;
  '(_, ok) ← gets (λ up, map_index (cache_pool up) (Hex h));
  Unlock;;
  mret ok.

Definition GetUnspentsOfAddr (addr : Address) : M (list UxOut) :=
  Lock;;
  uxs ← gets (λ up,
    foldl (λ uxs ux,
             if decide (BodyAddress (Body ux) = addr) then uxs ++ [ux] else uxs)
          [] (range_values (cache_pool up)));
  Unlock;;
  mret uxs.

Definition GetUnspentsOfAddrs (addrs : list Address) : M (gmap Address (list UxOut)) :=
  Lock;;
  addrm ← mret (foldl (λ (s : gset Address) a, {[a]} ∪ s) ∅ addrs);
  addrUxs ← gets (λ up,
    foldl (λ (addrUxs : gmap Address (list UxOut)) ux,
             let a := BodyAddress (Body ux) in
             if decide (a ∈ addrm)
             then <[a := default [] (addrUxs !! a) ++ [ux]]> addrUxs
             else addrUxs)
          ∅ (range_values (cache_pool up)));
  Unlock;;
  mret addrUxs.

Definition GetUxHash : M SHA256 :=
  Lock;;
  h ← gets cache_uxhash;
  Unlock;;
  mret h.

(** *** Block application *)

(** Dereferencing the [*coin.UxOut] that [uxOuts.get] hands back. *)
Definition deref (p : option UxOut) : M UxOut :=
  match p with
  | Some ux => mret ux
  | None => λ _, Panics "invalid memory address or nil pointer dereference"
  end.

(** The loop of [deleteWithTx]; [uxHash] is the local of that name. *)
Fixpoint deleteWithTx_loop (tx : Tx) (hashes : list SHA256) (uxHash : SHA256)
    : M (Tx * (SHA256 * option error)) :=
  match hashes with
  | [] => mret (tx, (uxHash, None))
  | hash :: rest =>
      let '(ux, ok, err) := uxOuts_get tx hash in
      match err with
      | Some e => mret (tx, (SHA256_zero, Some e))
      | None =>
          if negb ok then deleteWithTx_loop tx rest uxHash
          else
            let '(uxHash, err) := getXorHash tx in
            match err with
            | Some e => mret (tx, (SHA256_zero, Some e))
            | None =>
                ux ← deref ux;
                let uxHash := Xor uxHash (SnapshotHash ux) in
                let '(tx, err) := setXorHash tx uxHash in
                match err with
                | Some e => mret (tx, (SHA256_zero, Some e))
                | None =>
                    let '(tx, err) := uxOuts_delete tx hash in
                    match err with
                    | Some e => mret (tx, (SHA256_zero, Some e))
                    | None => deleteWithTx_loop tx rest uxHash
                    end
                end
            end
      end
  end.

Definition deleteWithTx (tx : Tx) (hashes : list SHA256)
    : M (Tx * (SHA256 * option error)) :=
  deleteWithTx_loop tx hashes SHA256_zero.

(** [addWithTx].  Nothing in its body can panic in this model of the
    store, so the deferred [recover] never runs and is left out. *)
Definition addWithTx (tx : Tx) (ux : UxOut) : M (Tx * (SHA256 * option error)) :=
  let h := Hash ux in
  c ← Contains h;
  if c : bool
  then mret (tx, (SHA256_zero,
         Some ("attemps to insert uxout:" +:+ Hex h
               +:+ " twice into the unspent pool")))
  else
    let '(xorhash, err) := getXorHash tx in
    match err with
    | Some e => mret (tx, (SHA256_zero, Some e))
    | None =>
        let xorhash := Xor xorhash (SnapshotHash ux) in
        let '(tx, err) := setXorHash tx xorhash in
        match err with
        | Some e => mret (tx, (SHA256_zero, Some e))
        | None =>
            let '(tx, err) := uxOuts_set tx h ux in
            match err with
            | Some e => mret (tx, (SHA256_zero, Some e))
            | None => mret (tx, (xorhash, None))
            end
        end
    end.

(** [bucket.Rollback]: a closure over the pool. *)
Definition Rollback : Type := M unit.

(** The inner loop of [processBlock] over the outputs of one transaction;
    [uxHash] is assigned on every round, also on the failing one. *)
Fixpoint processBlock_add (tx : Tx) (txUxs : list UxOut) (uxHash : SHA256)
    : M (Tx * (SHA256 * option error)) :=
  match txUxs with
  | [] => mret (tx, (uxHash, None))
  | ux :: rest =>
      '(tx, (uxHash, err)) ← addWithTx tx ux;
      match err with
      | Some e => mret (tx, (uxHash, Some e))
      | None => processBlock_add tx rest uxHash
      end
  end.

(** The locals [delUxs], [addUxs] and [uxHash] of [processBlock]. *)
Record Locals := mkLocals {
  delUxs : list UxOut; addUxs : list UxOut; uxHash : SHA256 }.

(** The loop of [processBlock] over the transactions of the block. *)
Fixpoint processBlock_loop (head : BlockHeader) (tx : Tx)
    (txns : list Transaction) (l : Locals) : M (Tx * (Locals * option error)) :=
  match txns with
  | [] => mret (tx, (l, None))
  | txn :: rest =>
      '(uxs, err) ← getArray (In txn);
      match err with
      | Some e => mret (tx, (l, Some e))
      | None =>
          let l := mkLocals (delUxs l ++ uxs) (addUxs l) (uxHash l) in
          '(tx, (_, err)) ← deleteWithTx tx (In txn);
          match err with
          | Some e => mret (tx, (l, Some e))
          | None =>
              let txUxs := CreateUnspents head txn in
              let l := mkLocals (delUxs l) (addUxs l ++ txUxs) (uxHash l) in
              '(tx, (h, err)) ← processBlock_add tx txUxs (uxHash l);
              let l := mkLocals (delUxs l) (addUxs l) h in
              match err with
              | Some e => mret (tx, (l, Some e))
              | None => processBlock_loop head tx rest l
              end
          end
      end
  end.

Definition processBlock (b : Block) (tx : Tx)
    : M (Tx * (Rollback * option error)) :=
  oldUxHash ← gets cache_uxhash;
  '(tx, (l, err)) ← processBlock_loop (BlockHead b) tx
                      (Transactions (BlockBody_ b))
                      (mkLocals [] [] SHA256_zero);
  match err with
  | Some e => mret (tx, (mret tt : Rollback, Some e))
  | None =>
      Lock;;
      deleteUxFromCache (delUxs l);;
      addUxToCache (addUxs l);;
      updateUxHashInCache (uxHash l);;
      Unlock;;
      mret (tx,
            ((Lock;;
              deleteUxFromCache (addUxs l);;
              addUxToCache (delUxs l);;
              updateUxHashInCache oldUxHash;;
              Unlock) : Rollback,
             None))
  end.

End Pool.

(** ** Vocabulary of the statements *)

Section Vocabulary.

Context `{Externals}.

(** The cache key of a record: [ux.Hash().Hex()]. *)
Definition key (ux : UxOut) : string := Hex (Hash ux).

Definition present (m : gmap string UxOut) (h : SHA256) : Prop :=
  is_Some (m !! Hex h).

(** The error [getArray] builds for a missing id. *)
Definition not_exist (h : SHA256) : error :=
  "unspent output of " +:+ Hex h +:+ " does not exist".

(** The error [addWithTx] builds for an id that is already pooled. *)
Definition insert_twice (h : SHA256) : error :=
  "attemps to insert uxout:" +:+ Hex h +:+ " twice into the unspent pool".

(** Every cache entry sits under the key of the record it holds, as
    [addUxToCache] files it. *)
Definition cache_wf (m : gmap string UxOut) : Prop :=
  ∀ k ux, m !! k = Some ux → k = key ux.

(** XOR of [SnapshotHash] over a list of records. *)
Definition xor_all (uxs : list UxOut) : SHA256 :=
  foldr (λ ux h, Xor (SnapshotHash ux) h) SHA256_zero uxs.

(** All input ids of a block, and all outputs it creates, in block order. *)
Definition block_inputs (txns : list Transaction) : list SHA256 :=
  concat (In <$> txns).
Definition block_outputs (head : BlockHeader) (txns : list Transaction)
    : list UxOut :=
  concat (CreateUnspents head <$> txns).

(** The cache after the update phase of [processBlock], and after the
    closure it returns has run. *)
Definition cache_delete (uxs : list UxOut) (m : gmap string UxOut)
    : gmap string UxOut :=
  foldl (λ m ux, delete (key ux) m) m uxs.
Definition cache_add (uxs : list UxOut) (m : gmap string UxOut)
    : gmap string UxOut :=
  foldl (λ m ux, <[key ux := ux]> m) m uxs.

(** The output region holds, under each id, the encoding of a record with
    that id. *)
Definition store_wf (pool : gmap SHA256 bytes) : Prop :=
  ∀ k v, pool !! k = Some v → ∃ ux, DeserializeRaw v = inl ux ∧ Hash ux = k.

(** The records of the output region, decoded. *)
Definition decode (v : bytes) : option UxOut :=
  match DeserializeRaw v with inl ux => Some ux | inr _ => None end.

(** The closure [processBlock] returns on success, over the records it
    deleted and added and the checksum it found. *)
Definition undo (dels adds : list UxOut) (oldUxHash : SHA256) : Rollback :=
  Lock;;
  deleteUxFromCache adds;;
  addUxToCache dels;;
  updateUxHashInCache oldUxHash;;
  Unlock.

(** The cache filled by the scan of [syncCache]. *)
Definition loaded (kvs : list (SHA256 * bytes)) : list (string * UxOut) :=
  omap (λ kv, (λ ux, (Hex kv.1, ux)) <$> decode kv.2) kvs.

(** XOR of [SnapshotHash] over the records of a cache, that is, over what
    [GetAll] hands back. *)
Definition checksum_of (m : gmap string UxOut) : SHA256 :=
  xor_all (range_values m).

(** The transaction and a cache agree: each id reads in the cache as the
    decoded record of the output region, and the checksum region holds the
    checksum of the cache. *)
Definition in_sync (tx : Tx) (m : gmap string UxOut) : Prop :=
  (∀ id, m !! Hex id = unspent_pool tx !! id ≫= decode)
  ∧ (getXorHash tx).1 = checksum_of m.

(** The last transaction of the block creates an output. *)
Definition ends_with_output (head : BlockHeader) (txns : list Transaction)
    : Prop :=
  match last txns with
  | Some txn => CreateUnspents head txn ≠ []
  | None => False
  end.

End Vocabulary.

(** The value a computation hands back, when it returns. *)
Definition returned {A} (o : Outcome A) : option A :=
  match o with
  | Returns a _ => Some a
  | _ => None
  end.

(** What a run handed back: the transaction as the run left it, the
    closure and the pool. *)
Definition outcome_tx {A} (o : Outcome (Tx * A)) : Tx :=
  match o with
  | Returns (tx, _) _ => tx
  | _ => mkTx false ∅ ∅
  end.
Definition outcome_rollback (o : Outcome (Tx * (Rollback * option error)))
    : Rollback :=
  match o with
  | Returns (_, (rb, _)) _ => rb
  | _ => mret tt
  end.
Definition outcome_pool {A} (o : Outcome A) : UnspentPool :=
  match o with
  | Returns _ up => up
  | _ => mkUnspentPool (mkDB false ∅ ∅) ∅ SHA256_zero false
  end.

(** [Len] after the block is [Len] before it, plus the outputs created,
    minus the inputs spent. *)
Definition Len_changes_by (up up' : UnspentPool) (created spent : nat) : Prop :=
  ∃ n n', returned (Len up) = Some n ∧ returned (Len up') = Some n'
          ∧ (Z.of_N n' = Z.of_N n + Z.of_nat created - Z.of_nat spent)%Z.

(** ** A small instance of the external functions

    Digests are replaced by a packing of the fields they cover and new
    outputs are derived from the outputs a transaction declares.  Small
    enough to run blocks on. *)

Definition demo_Hex (h : SHA256) : string := HexString.of_N h.

Definition demo_Hash (ux : UxOut) : SHA256 :=
  let b := Body ux in
  (((SrcTransaction b * 256 + BodyAddress b) * 256 + Coins b) * 256 + Hours b)%N.

Definition demo_SnapshotHash (ux : UxOut) : SHA256 :=
  ((demo_Hash ux * 256 + Time (Head ux)) * 256 + BkSeq (Head ux) + 1)%N.

(** The codec lays the fields out at fixed widths, least significant byte
    first: time and block (8 bytes each), source transaction (32), address
    (21), coins and hours (8 each). *)
Fixpoint le_bytes (n : nat) (x : N) : bytes :=
  match n with
  | O => []
  | S n' => default Byte.x00 (Byte.of_N (x mod 256)%N) :: le_bytes n' (x / 256)%N
  end.

Definition le_value (v : bytes) : N :=
  foldr (λ b acc, (Byte.to_N b + 256 * acc)%N) 0%N v.

Definition demo_Serialize (ux : UxOut) : bytes :=
  le_bytes 8 (Time (Head ux)) ++ le_bytes 8 (BkSeq (Head ux))
  ++ le_bytes 32 (SrcTransaction (Body ux))
  ++ le_bytes 21 (BodyAddress (Body ux))
  ++ le_bytes 8 (Coins (Body ux)) ++ le_bytes 8 (Hours (Body ux)).

Definition demo_DeserializeRaw (v : bytes) : UxOut + error :=
  if decide (length v = 85)
  then inl (mkUxOut
              (mkUxHead (le_value (take 8 v)) (le_value (take 8 (drop 8 v))))
              (mkUxBody (le_value (take 32 (drop 16 v)))
                        (le_value (take 21 (drop 48 v)))
                        (le_value (take 8 (drop 69 v)))
                        (le_value (take 8 (drop 77 v)))))
  else inr "Deserialization failed".

Definition demo_TxHash (txn : Transaction) : SHA256 :=
  foldl Xor (N.of_nat (length (Out txn))) (In txn).

Definition demo_CreateUnspents (bh : BlockHeader) (txn : Transaction)
    : list UxOut :=
  let h := if decide (BlockSeq bh = 0%N) then SHA256_zero else demo_TxHash txn in
  (λ o, mkUxOut (mkUxHead (BlockTime bh) (BlockSeq bh))
                (mkUxBody h (OutAddress o) (OutCoins o) (OutHours o)))
    <$> Out txn.

Definition demo : Externals := {|
  Hex := demo_Hex;
  Hash := demo_Hash;
  SnapshotHash := demo_SnapshotHash;
  Serialize := demo_Serialize;
  DeserializeRaw := demo_DeserializeRaw;
  CreateUnspents := demo_CreateUnspents |}.

(** Three records A, B and C, and a pool whose cache and store hold them. *)
Definition uxA : UxOut := mkUxOut (mkUxHead 10 1) (mkUxBody 1%N 7%N 5 0).
Definition uxB : UxOut := mkUxOut (mkUxHead 10 1) (mkUxBody 1%N 8%N 6 0).
Definition uxC : UxOut := mkUxOut (mkUxHead 11 2) (mkUxBody 2%N 9%N 3 1).

Definition demo_records (uxs : list UxOut) : gmap SHA256 bytes :=
  list_to_map ((λ ux, (demo_Hash ux, demo_Serialize ux)) <$> uxs).

Definition demo_checksum (uxs : list UxOut) : SHA256 :=
  foldl (λ h ux, Xor h (demo_SnapshotHash ux)) SHA256_zero uxs.

Definition demo_db (uxs : list UxOut) : DB :=
  mkDB true (demo_records uxs) {[ xorhashKey := demo_checksum uxs ]}.

Definition demo_tx (uxs : list UxOut) : Tx :=
  mkTx true (demo_records uxs) {[ xorhashKey := demo_checksum uxs ]}.

Definition demo_up (uxs : list UxOut) : UnspentPool :=
  mkUnspentPool (demo_db uxs)
    (list_to_map ((λ ux, (demo_Hex (demo_Hash ux), ux)) <$> uxs))
    (demo_checksum uxs) false.

(** ** Blocks to run on the small instance *)

Definition idA : SHA256 := demo_Hash uxA.

(** Spends an id that is not pooled. *)
Definition blk_missing : Block :=
  mkBlock (mkBlockHeader 20 3) (mkBlockBody [mkTransaction [99%N] []]).

(** Spends A and creates nothing. *)
Definition blk_spend_only : Block :=
  mkBlock (mkBlockHeader 20 3) (mkBlockBody [mkTransaction [idA] []]).

(** Spends A and creates two different outputs. *)
Definition blk_plain : Block :=
  mkBlock (mkBlockHeader 20 3)
    (mkBlockBody [mkTransaction [idA]
       [mkTransactionOutput 4%N 2 0; mkTransactionOutput 5%N 3 0]]).

(** Two transactions that both spend A; each creates one output. *)
Definition blk_double_spend : Block :=
  mkBlock (mkBlockHeader 20 3)
    (mkBlockBody [mkTransaction [idA] [mkTransactionOutput 4%N 2 0];
                  mkTransaction [idA] [mkTransactionOutput 5%N 3 0]]).

(** One transaction that spends A and declares the same output twice. *)
Definition blk_twin_outputs : Block :=
  mkBlock (mkBlockHeader 20 3)
    (mkBlockBody [mkTransaction [idA]
       [mkTransactionOutput 4%N 2 0; mkTransactionOutput 4%N 2 0]]).

(** The output [blk_twin_outputs] declares twice. *)
Definition ux_twin : UxOut :=
  mkUxOut (mkUxHead 20 3)
    (mkUxBody (demo_TxHash (mkTransaction [idA]
                [mkTransactionOutput 4%N 2 0; mkTransactionOutput 4%N 2 0]))
              4%N 2 0).

(** Runs on the small instance. *)
Definition run_missing : Outcome (Tx * (Rollback * option error)) :=
  processBlock (H:=demo) blk_missing (demo_tx [uxA]) (demo_up [uxA]).
Definition run_spend_only : Outcome (Tx * (Rollback * option error)) :=
  processBlock (H:=demo) blk_spend_only (demo_tx [uxA; uxB]) (demo_up [uxA; uxB]).
Definition run_plain : Outcome (Tx * (Rollback * option error)) :=
  processBlock (H:=demo) blk_plain (demo_tx [uxA; uxB]) (demo_up [uxA; uxB]).
Definition run_double_spend : Outcome (Tx * (Rollback * option error)) :=
  processBlock (H:=demo) blk_double_spend
    (demo_tx [uxA; uxB; uxC]) (demo_up [uxA; uxB; uxC]).
Definition run_twin_outputs : Outcome (Tx * (Rollback * option error)) :=
  processBlock (H:=demo) blk_twin_outputs (demo_tx [uxA; uxB]) (demo_up [uxA; uxB]).
Definition built : Outcome (option UnspentPool * option error) :=
  NewUnspentPool (H:=demo) (demo_db [uxA; uxB]).

(** The twin output added through a transaction from which A is already
    deleted, once and then once more, while the cache still holds A and B
    as it does in the middle of [processBlock]. *)
Definition add_once : Outcome (Tx * (SHA256 * option error)) :=
  addWithTx (H:=demo) (demo_tx [uxB]) ux_twin (demo_up [uxA; uxB]).
Definition add_twice : Outcome (Tx * (SHA256 * option error)) :=
  addWithTx (H:=demo) (outcome_tx add_once) ux_twin (demo_up [uxA; uxB]).

(** ** Further vocabulary *)


Section Decodable.

Context `{Externals}.

(** Every record of the output region decodes. *)
Definition decodable (pool : gmap SHA256 bytes) : Prop :=
  ∀ id v, pool !! id = Some v → is_Some (decode v).

End Decodable.

(** A database whose output region holds bytes that are no record, and a
    second block on top of [blk_plain]. *)
Definition demo_db_bad : DB :=
  mkDB true (<[ 5%N := [Byte.x00] ]> (demo_records [uxA])) ∅.

Definition blk_second : Block :=
  mkBlock (mkBlockHeader 30 4)
    (mkBlockBody [mkTransaction [demo_Hash uxB]
       [mkTransactionOutput 6%N 1 0]]).

Definition run_second : Outcome (Tx * (Rollback * option error)) :=
  processBlock (H:=demo) blk_second (outcome_tx run_plain) (outcome_pool run_plain).

(** The checksum a run of [deleteWithTx] or [addWithTx] handed back. *)
Definition outcome_hash (o : Outcome (Tx * (SHA256 * option error))) : SHA256 :=
  match o with
  | Returns (_, (h, _)) _ => h
  | _ => SHA256_zero
  end.

(** Deleting A and an id that is not stored. *)
Definition del_run : Outcome (Tx * (SHA256 * option error)) :=
  deleteWithTx (H:=demo) (demo_tx [uxA; uxB]) [idA; 99%N] (demo_up [uxA; uxB]).

(** * Properties *)

(** ** Running computations *)

Ltac run :=
  unfold mbind, M_bind, mret, M_ret, gets, modify, Lock, Unlock in *;
  simpl in *.

Lemma set_mutex_release (up : UnspentPool) :
  mutex up = false → set_mutex false (set_mutex true up) = up.
Proof. destruct up as [d m h mu]; simpl; intros ->; reflexivity. Qed.

Lemma bind_Returns {A B} (c : M A) (f : A → M B) up b up2 :
  (c ≫= f) up = Returns b up2 →
  ∃ a up1, c up = Returns a up1 ∧ f a up1 = Returns b up2.
Proof.
  unfold mbind, M_bind. destruct (c up) as [a up1| |msg]; [|done..].
  intros Hf. by exists a, up1.
Qed.

Lemma ret_Returns {A} (a b : A) up up' :
  mret (M:=M) a up = Returns b up' → a = b ∧ up = up'.
Proof. unfold mret, M_ret. by intros [= -> ->]. Qed.

Lemma foldl_snoc_id {A} (l acc : list A) :
  foldl (λ arr x, arr ++ [x]) acc l = acc ++ l.
Proof.
  revert acc; induction l as [|x l IH]; intros acc; simpl.
  - by rewrite app_nil_r.
  - by rewrite IH, <- app_assoc.
Qed.

(** ** Queries *)

Section Queries.
Context `{Externals}.

Lemma getArray_loop_spec (m : gmap string UxOut) (hashes : list SHA256) :
  ∀ acc,
    (∃ uxs, Forall2 (λ h ux, m !! Hex h = Some ux) hashes uxs
            ∧ getArray_loop m hashes acc = (acc ++ uxs, None))
    ∨ (∃ l1 h l2, hashes = l1 ++ h :: l2 ∧ Forall (present m) l1
                  ∧ m !! Hex h = None
                  ∧ getArray_loop m hashes acc = ([], Some (not_exist h))).
Proof.
  induction hashes as [|h rest IH]; intros acc; simpl.
  - left. exists []. split; [constructor | by rewrite app_nil_r].
  - unfold map_index. destruct (m !! Hex h) as [ux|] eqn:Hh; simpl.
    + destruct (IH (acc ++ [ux]))
        as [(uxs & Hall & Hrun)|(l1 & h' & l2 & -> & Hl1 & Hh' & Hrun)].
      * left. exists (ux :: uxs). split; [by constructor|].
        by rewrite Hrun, <- app_assoc.
      * right. exists (h :: l1), h', l2. repeat split; try done.
        constructor; [by exists ux | done].
    + right. exists [], h, rest. repeat split; try done.
Qed.

Lemma getArray_inv hashes up uxs e up' :
  getArray hashes up = Returns (uxs, e) up' →
  up' = up
  ∧ (e = None → Forall2 (λ h ux, cache_pool up !! Hex h = Some ux) hashes uxs).
Proof.
  unfold getArray, gets. intros [= Hloop <-]. split; [done|]. intros ->.
  destruct (getArray_loop_spec (cache_pool up) hashes [])
    as [(new & Hnew & Hrun)|(l1 & h & l2 & _ & _ & _ & Hrun)];
    rewrite Hrun in Hloop; by simplify_eq.
Qed.

Lemma GetAll_free (up : UnspentPool) :
  mutex up = false →
  GetAll up = Returns (range_values (cache_pool up), None) up.
Proof.
  destruct up as [d m x mu]; simpl; intros ->.
  unfold GetAll; run. by rewrite foldl_snoc_id.
Qed.

Lemma Get_free h (up : UnspentPool) :
  mutex up = false → Get h up = Returns (map_index (cache_pool up) (Hex h)) up.
Proof.
  destruct up as [d m x mu]; simpl; intros ->. unfold Get; run.
  by destruct (map_index m (Hex h)).
Qed.

Lemma GetArray_free hashes (up : UnspentPool) :
  mutex up = false →
  GetArray hashes up = Returns (getArray_loop (cache_pool up) hashes []) up.
Proof. destruct up as [d m x mu]; simpl; by intros ->. Qed.

Lemma Len_free (up : UnspentPool) :
  mutex up = false → Len up = Returns (N.of_nat (size (cache_pool up))) up.
Proof. destruct up as [d m x mu]; simpl; by intros ->. Qed.

Lemma Contains_free h up :
  mutex up = false →
  Contains h up = Returns (map_index (cache_pool up) (Hex h)).2 up.
Proof.
  destruct up as [d m x mu]; simpl; intros ->. unfold Contains; run.
  by destruct (map_index m (Hex h)).
Qed.

Lemma Contains_inv h up c up' :
  Contains h up = Returns c up' →
  up' = up ∧ mutex up = false ∧ c = (map_index (cache_pool up) (Hex h)).2.
Proof.
  destruct up as [d m x [|]]; unfold Contains; run; [done|].
  destruct (map_index m (Hex h)) as [ux ok]; simpl. by intros [= <- <-].
Qed.

Lemma GetUxHash_free (up : UnspentPool) :
  mutex up = false → GetUxHash up = Returns (cache_uxhash up) up.
Proof. destruct up as [d m x mu]; simpl; by intros ->. Qed.

Lemma GetUnspentsOfAddr_free addr (up : UnspentPool) :
  mutex up = false → ∃ uxs, GetUnspentsOfAddr addr up = Returns uxs up.
Proof. destruct up as [d m x mu]; simpl; intros ->. by eexists. Qed.

Lemma GetUnspentsOfAddrs_free addrs (up : UnspentPool) :
  mutex up = false → ∃ r, GetUnspentsOfAddrs addrs up = Returns r up.
Proof. destruct up as [d m x mu]; simpl; intros ->. by eexists. Qed.

(** [Collides]: a miss on every id reaches the [Unlock]; the first hit
    returns with the mutex still held. *)
Lemma Collides_loop_miss hashes up :
  mutex up = true →
  Forall (λ h, cache_pool up !! Hex h = None) hashes →
  Collides_loop hashes up = Returns false (set_mutex false up).
Proof.
  intros Hheld. induction 1 as [|h rest Hh _ IH]; simpl.
  - unfold mbind, M_bind, Unlock. by rewrite Hheld.
  - unfold mbind, M_bind, gets, map_index. by rewrite Hh.
Qed.

Lemma Collides_loop_hit l1 h l2 up :
  Forall (λ h, cache_pool up !! Hex h = None) l1 →
  present (cache_pool up) h →
  Collides_loop (l1 ++ h :: l2) up = Returns true up.
Proof.
  intros Hl1 [ux Hh]. induction Hl1 as [|h' rest Hh' _ IH]; simpl.
  - unfold mbind, M_bind, gets, map_index. by rewrite Hh.
  - unfold mbind, M_bind, gets, map_index. by rewrite Hh'.
Qed.

Lemma Collides_miss hashes up :
  mutex up = false →
  Forall (λ h, cache_pool up !! Hex h = None) hashes →
  Collides hashes up = Returns false up.
Proof.
  intros Hfree Hall. unfold Collides, mbind, M_bind, Lock. rewrite Hfree.
  rewrite Collides_loop_miss by done. by rewrite set_mutex_release.
Qed.

Lemma Collides_hit l1 h l2 up :
  mutex up = false →
  Forall (λ h, cache_pool up !! Hex h = None) l1 →
  present (cache_pool up) h →
  Collides (l1 ++ h :: l2) up = Returns true (set_mutex true up).
Proof.
  intros Hfree Hl1 Hh. unfold Collides, mbind, M_bind, Lock. rewrite Hfree.
  by apply Collides_loop_hit.
Qed.

(** X17. With the mutex free, every query other than [Collides] returns
    with the pool as it found it, the mutex released. *)
Lemma queries_release_mutex h hashes addr addrs (up : UnspentPool) :
  mutex up = false →
  outcome_pool (Get h up) = up
  ∧ outcome_pool (GetArray hashes up) = up
  ∧ outcome_pool (GetAll up) = up
  ∧ outcome_pool (Len up) = up
  ∧ outcome_pool (Contains h up) = up
  ∧ outcome_pool (GetUnspentsOfAddr addr up) = up
  ∧ outcome_pool (GetUnspentsOfAddrs addrs up) = up
  ∧ outcome_pool (GetUxHash up) = up.
Proof.
  intros Hfree.
  rewrite Get_free, GetArray_free, GetAll_free, Len_free, Contains_free,
    GetUxHash_free by done.
  destruct (GetUnspentsOfAddr_free addr up Hfree) as [? ->].
  destruct (GetUnspentsOfAddrs_free addrs up Hfree) as [? ->].
  by split_and!.
Qed.

(** With the mutex held, every query waits. *)
Lemma queries_wait h hashes addr addrs (up : UnspentPool) :
  mutex up = true →
  Get h up = Blocked ∧ GetArray hashes up = Blocked ∧ GetAll up = Blocked
  ∧ Len up = Blocked ∧ Contains h up = Blocked ∧ Collides hashes up = Blocked
  ∧ GetUnspentsOfAddr addr up = Blocked
  ∧ GetUnspentsOfAddrs addrs up = Blocked ∧ GetUxHash up = Blocked.
Proof.
  destruct up as [d m x mu]; simpl; intros ->. by split_and!.
Qed.

End Queries.

(** ** The cache as a map *)

Section Cache.
Context `{Externals}.

Lemma lookup_cache_delete uxs : ∀ (m : gmap string UxOut) k,
  cache_delete uxs m !! k
  = if decide (k ∈ key <$> uxs) then None else m !! k.
Proof.
  induction uxs as [|ux uxs IH]; intros m k.
  - case_decide as Hk; [by apply elem_of_nil in Hk|done].
  - change (cache_delete uxs (delete (key ux) m) !! k =
            if decide (k ∈ key ux :: (key <$> uxs)) then None else m !! k).
    rewrite IH. destruct (decide (k ∈ key <$> uxs)) as [Hin|Hout].
    + rewrite decide_True; [done|]. by right.
    + destruct (decide (k = key ux)) as [->|Hne].
      * rewrite decide_True by (by left). apply lookup_delete_eq.
      * rewrite decide_False; [by apply lookup_delete_ne|].
        by intros [?|?]%elem_of_cons.
Qed.

Lemma lookup_cache_add_notin uxs : ∀ (m : gmap string UxOut) k,
  k ∉ key <$> uxs → cache_add uxs m !! k = m !! k.
Proof.
  induction uxs as [|ux uxs IH]; intros m k Hk; [done|].
  rewrite fmap_cons in Hk. apply not_elem_of_cons in Hk as [Hne Hk].
  change (cache_add uxs (<[key ux := ux]> m) !! k = m !! k).
  rewrite IH by done. by apply lookup_insert_ne.
Qed.

Lemma lookup_cache_add_in uxs : ∀ (m : gmap string UxOut) k,
  k ∈ key <$> uxs →
  ∃ ux, ux ∈ uxs ∧ key ux = k ∧ cache_add uxs m !! k = Some ux.
Proof.
  induction uxs as [|ux uxs IH]; intros m k Hk; [by apply elem_of_nil in Hk|].
  change (∃ ux0, ux0 ∈ ux :: uxs ∧ key ux0 = k
                 ∧ cache_add uxs (<[key ux := ux]> m) !! k = Some ux0).
  destruct (decide (k ∈ key <$> uxs)) as [Hin|Hout].
  - destruct (IH (<[key ux := ux]> m) k Hin) as (ux0 & ? & ? & ?).
    exists ux0. split_and!; [by right|done..].
  - rewrite fmap_cons in Hk. apply elem_of_cons in Hk as [->|Hk]; [|done].
    exists ux. split_and!; [by left|done|].
    rewrite lookup_cache_add_notin by done. apply lookup_insert_eq.
Qed.

(** Records read from a well-keyed cache sit under their own key. *)
Lemma fetched_own_key (m : gmap string UxOut) hashes uxs :
  cache_wf m →
  Forall2 (λ h ux, m !! Hex h = Some ux) hashes uxs →
  key <$> uxs = Hex <$> hashes ∧ Forall (λ ux, m !! key ux = Some ux) uxs.
Proof.
  intros Hwf. induction 1 as [|h ux hashes uxs Hh _ [IH1 IH2]]; [done|].
  pose proof (Hwf _ _ Hh) as Hk. rewrite !fmap_cons. split; [by rewrite IH1, Hk|].
  constructor; [by rewrite <- Hk | done].
Qed.

(** Deleting what was added and adding back what was deleted. *)
Lemma cache_undo (m : gmap string UxOut) dels adds :
  Forall (λ ux, m !! key ux = Some ux) dels →
  Forall (λ ux, m !! key ux = None) adds →
  cache_add dels (cache_delete adds (cache_add adds (cache_delete dels m))) = m.
Proof.
  rewrite !Forall_forall. intros Hdels Hadds. apply map_eq; intros k.
  destruct (decide (k ∈ key <$> dels)) as [Hin|Hout].
  - destruct (lookup_cache_add_in dels
      (cache_delete adds (cache_add adds (cache_delete dels m))) k Hin)
      as (ux & Hux & <- & ->).
    symmetry. by apply Hdels.
  - rewrite lookup_cache_add_notin, lookup_cache_delete by done.
    destruct (decide (k ∈ key <$> adds)) as [Hin|Hout'].
    + apply list_elem_of_fmap in Hin as (ux & -> & Hux).
      symmetry. by apply Hadds.
    + rewrite lookup_cache_add_notin, lookup_cache_delete by done.
      by rewrite decide_False.
Qed.

Lemma cache_wf_delete uxs (m : gmap string UxOut) :
  cache_wf m → cache_wf (cache_delete uxs m).
Proof.
  intros Hwf k ux. rewrite lookup_cache_delete. case_decide; [done|]. apply Hwf.
Qed.

Lemma cache_wf_add uxs (m : gmap string UxOut) :
  cache_wf m → cache_wf (cache_add uxs m).
Proof.
  intros Hwf k ux. destruct (decide (k ∈ key <$> uxs)) as [Hin|Hout].
  - destruct (lookup_cache_add_in uxs m k Hin) as (ux' & _ & <- & ->).
    by intros [= ->].
  - rewrite lookup_cache_add_notin by done. apply Hwf.
Qed.

Lemma size_cache_delete uxs : ∀ (m : gmap string UxOut),
  NoDup (key <$> uxs) →
  Forall (λ ux, is_Some (m !! key ux)) uxs →
  size (cache_delete uxs m) + length uxs = size m.
Proof.
  induction uxs as [|ux uxs IH]; intros m Hnd Hall; [simpl; lia|].
  rewrite fmap_cons in Hnd.
  apply NoDup_cons in Hnd as [Hux Hnd]. apply Forall_cons in Hall as [[x Hx] Hall].
  change (size (cache_delete uxs (delete (key ux) m)) + S (length uxs) = size m).
  assert (size m = S (size (delete (key ux) m))) as ->.
  { rewrite <- (insert_delete_id m (key ux) x) at 1 by done.
    apply map_size_insert_None, lookup_delete_eq. }
  rewrite <- (IH (delete (key ux) m)); [lia|done|].
  rewrite Forall_forall in *. intros ux' Hux'.
  rewrite lookup_delete_ne; [by apply Hall|].
  intros Heq. apply Hux. rewrite Heq. by apply list_elem_of_fmap_2.
Qed.

Lemma size_cache_add uxs : ∀ (m : gmap string UxOut),
  NoDup (key <$> uxs) →
  Forall (λ ux, m !! key ux = None) uxs →
  size (cache_add uxs m) = size m + length uxs.
Proof.
  induction uxs as [|ux uxs IH]; intros m Hnd Hall; [simpl; lia|].
  rewrite fmap_cons in Hnd.
  apply NoDup_cons in Hnd as [Hux Hnd]. apply Forall_cons in Hall as [Hx Hall].
  change (size (cache_add uxs (<[key ux:=ux]> m)) = size m + S (length uxs)).
  rewrite IH; [by rewrite map_size_insert_None by done; lia|done|].
  rewrite Forall_forall in *. intros ux' Hux'.
  rewrite lookup_insert_ne; [by apply Hall|].
  intros Heq. apply Hux. rewrite Heq. by apply list_elem_of_fmap_2.
Qed.

End Cache.

(** ** Block application, step by step *)

Section Block.
Context `{Externals}.

Lemma uxOuts_get_cases tx hash :
  (∃ e, uxOuts_get tx hash = (None, false, Some e))
  ∨ (uxOuts_get tx hash = (None, false, None) ∧ unspent_pool tx !! hash = None)
  ∨ (∃ v ux, uxOuts_get tx hash = (Some ux, true, None)
             ∧ unspent_pool tx !! hash = Some v ∧ DeserializeRaw v = inl ux).
Proof.
  unfold uxOuts_get. destruct (unspent_pool tx !! hash) as [v|]; [|by right; left].
  destruct (DeserializeRaw v) as [ux|e] eqn:Hv.
  - right; right. by exists v, ux.
  - left. by exists e.
Qed.

(** [deleteWithTx] never touches the pool, never blocks and never panics. *)
Lemma deleteWithTx_loop_returns hashes :
  ∀ tx acc up, ∃ tx' r, deleteWithTx_loop tx hashes acc up = Returns (tx', r) up.
Proof.
  induction hashes as [|hash rest IH]; intros tx acc up; simpl.
  - by eexists _, _.
  - destruct (uxOuts_get_cases tx hash) as [[e ->]|[[-> _]|(v & ux & -> & _ & _)]]; simpl.
    + by eexists _, _.
    + apply IH.
    + unfold getXorHash. destruct (unspent_meta tx !! xorhashKey); run;
        unfold setXorHash, meta_Put, uxOuts_delete, pool_Delete;
        destruct (writable tx) eqn:Hw; simpl; rewrite ?Hw; simpl;
        try apply IH; by eexists _, _.
Qed.

Lemma addWithTx_inv tx ux up tx' h e up' :
  addWithTx tx ux up = Returns (tx', (h, e)) up' →
  up' = up ∧ mutex up = false ∧ (e = None → cache_pool up !! key ux = None).
Proof.
  unfold addWithTx. intros Hrun.
  apply bind_Returns in Hrun as (c & up1 & Hc & Hrun).
  apply Contains_inv in Hc as (-> & Hfree & ->).
  unfold map_index, key in *.
  destruct (cache_pool up !! Hex (Hash ux)) eqn:Hc; simpl in Hrun.
  - apply ret_Returns in Hrun as [[= <- <- <-] <-]. done.
  - split_and!; [|done..].
    unfold getXorHash, setXorHash, meta_Put, uxOuts_set, pool_Put in Hrun.
    destruct (unspent_meta tx !! xorhashKey), (writable tx) eqn:Hw;
      simpl in Hrun; rewrite ?Hw in Hrun;
      by apply ret_Returns in Hrun as [_ <-].
Qed.

Lemma addWithTx_returns tx ux up :
  mutex up = false → ∃ r, addWithTx tx ux up = Returns r up.
Proof.
  intros Hfree. unfold addWithTx. unfold mbind, M_bind.
  rewrite (Contains_free _ _ Hfree).
  destruct (map_index _ _).2; [by eexists|].
  unfold getXorHash, setXorHash, meta_Put, uxOuts_set, pool_Put.
  destruct (unspent_meta tx !! xorhashKey), (writable tx) eqn:Hw;
    simpl; rewrite ?Hw; by eexists.
Qed.

Lemma processBlock_add_inv txUxs :
  ∀ tx acc up tx' h e up',
    processBlock_add tx txUxs acc up = Returns (tx', (h, e)) up' →
    up' = up
    ∧ (e = None → Forall (λ ux, cache_pool up !! key ux = None) txUxs)
    ∧ (e = None → txUxs = [] → h = acc)
    ∧ (e = None → txUxs ≠ [] → mutex up = false).
Proof.
  induction txUxs as [|ux rest IH]; intros tx acc up tx' h e up' Hrun; simpl in Hrun.
  - apply ret_Returns in Hrun as [[= <- <- <-] <-]. by split_and!.
  - apply bind_Returns in Hrun as ([tx1 [h1 e1]] & up1 & Hadd & Hrun).
    apply addWithTx_inv in Hadd as (-> & Hfree & Hnew).
    destruct e1 as [err|].
    + apply ret_Returns in Hrun as [[= <- <- <-] <-]. by split_and!.
    + apply IH in Hrun as (-> & Hall & _ & _). split_and!; try done.
      intros ->. constructor; auto.
Qed.

Lemma processBlock_add_returns txUxs :
  ∀ tx acc up, mutex up = false →
    ∃ r, processBlock_add tx txUxs acc up = Returns r up.
Proof.
  induction txUxs as [|ux rest IH]; intros tx acc up Hfree; simpl.
  - by eexists.
  - unfold mbind, M_bind.
    destruct (addWithTx_returns tx ux up Hfree) as [[tx1 [h1 [e1|]]] ->].
    + by eexists.
    + by apply IH.
Qed.

Lemma processBlock_loop_inv head txns :
  ∀ tx l up tx' l' e up',
    processBlock_loop head tx txns l up = Returns (tx', (l', e)) up' →
    up' = up
    ∧ (e = None →
       ∃ uxs,
         Forall2 (λ h ux, cache_pool up !! Hex h = Some ux) (block_inputs txns) uxs
         ∧ delUxs l' = delUxs l ++ uxs
         ∧ addUxs l' = addUxs l ++ block_outputs head txns
         ∧ Forall (λ ux, cache_pool up !! key ux = None) (block_outputs head txns)
         ∧ (block_outputs head txns = [] → uxHash l' = uxHash l)).
Proof.
  induction txns as [|txn rest IH]; intros tx l up tx' l' e up' Hrun; simpl in Hrun.
  - apply ret_Returns in Hrun as [[= <- <- <-] <-]. split; [done|]. intros _.
    exists []. unfold block_inputs, block_outputs; simpl.
    rewrite !app_nil_r. by split_and!.
  - apply bind_Returns in Hrun as ([uxs e1] & up1 & Hget & Hrun).
    apply getArray_inv in Hget as [-> Hins].
    destruct e1 as [err|].
    { apply ret_Returns in Hrun as [[= <- <- <-] <-]. done. }
    apply bind_Returns in Hrun as ([tx1 [h1 e1]] & up1 & Hdel & Hrun).
    destruct (deleteWithTx_loop_returns (In txn) tx SHA256_zero up) as (tx2 & r2 & Hdel').
    unfold deleteWithTx in Hdel. rewrite Hdel' in Hdel.
    injection Hdel as Htx Hr Hup. subst tx2 r2 up1.
    destruct e1 as [err|].
    { apply ret_Returns in Hrun as [[= <- <- <-] <-]. done. }
    apply bind_Returns in Hrun as ([tx3 [h3 e3]] & up3 & Hadd & Hrun).
    simpl in Hadd. apply processBlock_add_inv in Hadd as (-> & Hnew & Hnil & _).
    destruct e3 as [err|].
    { apply ret_Returns in Hrun as [[= <- <- <-] <-]. done. }
    apply IH in Hrun as (-> & Hrest). split; [done|]. intros ->.
    destruct (Hrest eq_refl) as (uxs' & Hins' & Hd & Ha & Hnew' & Hh). simpl in *.
    exists (uxs ++ uxs'). unfold block_inputs, block_outputs in *; simpl.
    split_and!.
    + apply Forall2_app; auto.
    + by rewrite Hd, <- app_assoc.
    + by rewrite Ha, <- app_assoc.
    + apply Forall_app; auto.
    + intros [Hnone Hrestnone]%app_eq_nil. rewrite Hh by done. auto.
Qed.

Lemma processBlock_loop_returns head txns :
  ∀ tx l up, mutex up = false →
    ∃ r, processBlock_loop head tx txns l up = Returns r up.
Proof.
  induction txns as [|txn rest IH]; intros tx l up Hfree; simpl.
  - by eexists.
  - unfold mbind at 1, M_bind at 1. unfold getArray at 1, gets.
    destruct (getArray_loop _ _ _) as [uxs [err|]]; [by eexists|].
    unfold mbind at 1, M_bind at 1, deleteWithTx.
    destruct (deleteWithTx_loop_returns (In txn) tx SHA256_zero up)
      as (tx2 & [h2 e2] & ->).
    destruct e2 as [err|]; [by eexists|].
    unfold mbind at 1, M_bind at 1.
    destruct (processBlock_add_returns (CreateUnspents head txn) tx2
                (uxHash l) up Hfree) as [[tx3 [h3 e3]] Hadd].
    simpl. rewrite Hadd. destruct e3 as [err|]; [by eexists|]. by apply IH.
Qed.

(** A successful [processBlock]: the run of its loop, the pool it leaves
    and the closure it returns. *)
Lemma processBlock_success b tx up tx' rb up' :
  processBlock b tx up = Returns (tx', (rb, None)) up' →
  ∃ l,
    processBlock_loop (BlockHead b) tx (Transactions (BlockBody_ b))
      (mkLocals [] [] SHA256_zero) up = Returns (tx', (l, None)) up
    ∧ mutex up = false
    ∧ up' = mkUnspentPool (db up)
              (cache_add (addUxs l) (cache_delete (delUxs l) (cache_pool up)))
              (uxHash l) false
    ∧ rb = undo (delUxs l) (addUxs l) (cache_uxhash up).
Proof.
  unfold processBlock. intros Hrun.
  apply bind_Returns in Hrun as (old & up1 & [= <- <-] & Hrun).
  apply bind_Returns in Hrun as ([tx1 [l e1]] & up1 & Hloop & Hrun).
  pose proof (processBlock_loop_inv _ _ _ _ _ _ _ _ _ Hloop) as [-> _].
  destruct e1 as [err|].
  { by apply ret_Returns in Hrun as [[=] _]. }
  exists l. destruct up as [d m x [|]]; run; [done|].
  by injection Hrun as <- <- <-.
Qed.

Lemma processBlock_inv b tx up tx' rb e up' :
  processBlock b tx up = Returns (tx', (rb, e)) up' →
  match e with
  | Some _ => up' = up ∧ rb = mret tt
  | None =>
      let txns := Transactions (BlockBody_ b) in
      let adds := block_outputs (BlockHead b) txns in
      mutex up = false
      ∧ ∃ dels h,
          Forall2 (λ i ux, cache_pool up !! Hex i = Some ux) (block_inputs txns) dels
          ∧ Forall (λ ux, cache_pool up !! key ux = None) adds
          ∧ (adds = [] → h = SHA256_zero)
          ∧ up' = mkUnspentPool (db up)
                    (cache_add adds (cache_delete dels (cache_pool up))) h false
          ∧ rb = undo dels adds (cache_uxhash up)
  end.
Proof.
  destruct e as [err|]; intros Hrun.
  - unfold processBlock in Hrun.
    apply bind_Returns in Hrun as (old & up1 & [= <- <-] & Hrun).
    apply bind_Returns in Hrun as ([tx1 [l e1]] & up1 & Hloop & Hrun).
    apply processBlock_loop_inv in Hloop as [-> _].
    destruct e1 as [err'|].
    + by apply ret_Returns in Hrun as [[= <- <- <-] <-].
    + destruct up as [d m x [|]]; run; [done|]. by injection Hrun.
  - apply processBlock_success in Hrun as (l & Hloop & Hfree & -> & ->).
    apply processBlock_loop_inv in Hloop as [_ Hfacts].
    destruct (Hfacts eq_refl) as (dels & Hins & Hd & Ha & Hnew & Hh).
    simpl in Hd, Ha, Hh. simpl. split; [done|].
    exists (delUxs l), (uxHash l). rewrite Hd, Ha. by split_and!.
Qed.

(** X18. With the mutex free, [processBlock] always returns: it neither
    waits nor panics, whatever the block, the transaction and the cache. *)
Lemma processBlock_returns b tx up :
  mutex up = false →
  ∃ tx' rb e up', processBlock b tx up = Returns (tx', (rb, e)) up'.
Proof.
  intros Hfree. unfold processBlock.
  unfold mbind at 1, M_bind at 1, gets. unfold mbind at 1, M_bind at 1.
  destruct (processBlock_loop_returns (BlockHead b) (Transactions (BlockBody_ b))
              tx (mkLocals [] [] SHA256_zero) up Hfree) as [[tx1 [l e1]] ->].
  destruct e1 as [err|]; [by eexists _, _, _, _|].
  destruct up as [d m x mu]; simpl in Hfree; subst mu. run.
  by eexists _, _, _, _.
Qed.

Lemma undo_runs dels adds old d m x :
  undo dels adds old (mkUnspentPool d m x false)
  = Returns tt (mkUnspentPool d (cache_add dels (cache_delete adds m)) old false).
Proof. reflexivity. Qed.

End Block.

(** ** The small instance *)

Lemma demo_Hex_inj : Inj (=) (=) demo_Hex.
Proof.
  intros x y Heq. rewrite <- (HexString.to_N_of_N x), <- (HexString.to_N_of_N y).
  unfold demo_Hex in Heq. by rewrite Heq.
Qed.

Lemma demo_up_wf uxs : cache_wf (H:=demo) (cache_pool (demo_up uxs)).
Proof.
  intros k ux Hk. simpl in Hk. apply elem_of_list_to_map_2 in Hk.
  apply list_elem_of_fmap in Hk as (ux' & [= -> ->] & _). done.
Qed.

(** ** Block application and its undo *)

Section Apply.
Context `{Externals}.

(** C4. When [processBlock] returns an error, the pool is the one it was
    called on: cache mapping and cached checksum are untouched, and the
    closure handed back does nothing. *)
Theorem processBlock_error_keeps_cache b tx up tx' rb err up' :
  processBlock b tx up = Returns (tx', (rb, Some err)) up' →
  cache_pool up' = cache_pool up ∧ cache_uxhash up' = cache_uxhash up
  ∧ up' = up ∧ rb = mret tt.
Proof.
  intros Hrun. apply processBlock_inv in Hrun as [-> ->]. done.
Qed.

(** C2. After a successful [processBlock] on a well-keyed cache, running
    the returned closure gives back the pool as it was before the call, so
    [GetAll], [Len], [Contains] for every id and [GetUxHash] answer as
    they did before the block. *)
Theorem undo_restores_pool b tx up tx' rb up' :
  cache_wf (cache_pool up) →
  processBlock b tx up = Returns (tx', (rb, None)) up' →
  ∃ up'', rb up' = Returns tt up''
    ∧ cache_pool up'' = cache_pool up
    ∧ cache_uxhash up'' = cache_uxhash up
    ∧ GetAll up'' = GetAll up
    ∧ Len up'' = Len up
    ∧ (∀ id, Contains id up'' = Contains id up)
    ∧ GetUxHash up'' = GetUxHash up.
Proof.
  intros Hwf Hrun. apply processBlock_inv in Hrun; simpl in Hrun.
  destruct Hrun as (Hfree & dels & h & Hins & Hnew & _ & -> & ->).
  destruct (fetched_own_key _ _ _ Hwf Hins) as [_ Hown].
  exists up. rewrite undo_runs, cache_undo by done.
  destruct up as [d m x mu]; simpl in *; subst mu. by split_and!.
Qed.

(** C5, amended. After a successful [processBlock] on a well-keyed cache,
    every input id of the block is gone from the pool and every created
    output is in it; when the input ids are pairwise distinct and so are
    the ids of the created outputs, [Len] changes by the number of created
    outputs minus the number of spent inputs. *)
Theorem apply_block_effect b tx up tx' rb up' :
  Inj (=) (=) Hex →
  cache_wf (cache_pool up) →
  processBlock b tx up = Returns (tx', (rb, None)) up' →
  let ins := block_inputs (Transactions (BlockBody_ b)) in
  let outs := block_outputs (BlockHead b) (Transactions (BlockBody_ b)) in
  Forall (λ id, Contains id up' = Returns false up') ins
  ∧ Forall (λ ux, Contains (Hash ux) up' = Returns true up') outs
  ∧ (NoDup ins → NoDup (Hash <$> outs) →
     Len_changes_by up up' (length outs) (length ins)).
Proof.
  intros Hinj Hwf Hrun ins outs. apply processBlock_inv in Hrun; simpl in Hrun.
  destruct Hrun as (Hfree & dels & h & Hins & Hnew & _ & -> & _).
  fold ins in Hins. fold outs in Hnew. fold outs.
  destruct (fetched_own_key _ _ _ Hwf Hins) as [Hkeys Hown].
  split_and!.
  - apply Forall_forall. intros id Hid. rewrite Contains_free by done. simpl.
    assert (Hex id ∈ key <$> dels) as Hdel.
    { rewrite Hkeys. by apply list_elem_of_fmap_2. }
    assert (Hex id ∉ key <$> outs) as Hout.
    { intros (ux & Hk & Hux)%list_elem_of_fmap.
      rewrite Forall_forall in Hnew. specialize (Hnew _ Hux).
      rewrite <- Hk in Hnew.
      apply list_elem_of_fmap in Hdel as (d & Hd & Hdin).
      rewrite Forall_forall in Hown. specialize (Hown _ Hdin).
      rewrite <- Hd in Hown. congruence. }
    unfold map_index.
    rewrite lookup_cache_add_notin, lookup_cache_delete, decide_True by done.
    done.
  - apply Forall_forall. intros ux Hux. rewrite Contains_free by done. simpl.
    destruct (lookup_cache_add_in outs (cache_delete dels (cache_pool up))
                (key ux)) as (ux' & _ & _ & Hlk).
    { by apply list_elem_of_fmap_2. }
    unfold map_index. fold (key ux). by rewrite Hlk.
  - intros Hnd_ins Hnd_outs. unfold Len_changes_by.
    rewrite !Len_free by done. simpl.
    eexists _, _. split_and!; [done..|].
    rewrite size_cache_add.
    + pose proof (size_cache_delete dels (cache_pool up)) as Hsz.
      rewrite Hkeys in Hsz.
      assert (length dels = length ins) as Hlen
        by (symmetry; by eapply Forall2_length).
      rewrite <- Hlen. rewrite <- Hsz; [lia| |].
      * by apply NoDup_fmap_2.
      * eapply Forall_impl; [exact Hown|]. intros ux ->. by eexists.
    + unfold key.
      change (λ ux, Hex (Hash ux)) with (Hex ∘ Hash).
      rewrite list_fmap_compose. by apply NoDup_fmap_2.
    + eapply Forall_impl; [exact Hnew|]. intros ux Hux.
      rewrite lookup_cache_delete. by case_decide.
Qed.

End Apply.

(** ** Deleting and adding through the transaction *)

Section Store.
Context `{Externals}.

Lemma deleteWithTx_loop_skip h l2 l1 :
  ∀ tx acc up,
    unspent_pool tx !! h = None →
    deleteWithTx_loop tx (l1 ++ h :: l2) acc up
    = deleteWithTx_loop tx (l1 ++ l2) acc up.
Proof.
  induction l1 as [|a l1 IH]; intros tx acc up Habs; simpl.
  - unfold uxOuts_get. by rewrite Habs.
  - destruct (uxOuts_get_cases tx a) as [[e ->]|[[-> _]|(v & ux & -> & _ & _)]]; simpl.
    + done.
    + by apply IH.
    + unfold getXorHash. destruct (unspent_meta tx !! xorhashKey); run;
        unfold setXorHash, meta_Put, uxOuts_delete, pool_Delete;
        destruct (writable tx) eqn:Hw; simpl; rewrite ?Hw; simpl; try done;
        apply IH; simpl; apply lookup_delete_None; by right.
Qed.

(** C8. An input id that is absent from the output region is skipped by
    [deleteWithTx]: on its own it yields no error and leaves the
    transaction (records and checksum) as it was, and inside a longer list
    the call behaves as if the id were not there. *)
Theorem deleteWithTx_skips_absent tx l1 h l2 up :
  unspent_pool tx !! h = None →
  deleteWithTx tx [h] up = Returns (tx, (SHA256_zero, None)) up
  ∧ deleteWithTx tx (l1 ++ h :: l2) up = deleteWithTx tx (l1 ++ l2) up.
Proof.
  intros Habs. split.
  - unfold deleteWithTx; simpl. unfold uxOuts_get. by rewrite Habs.
  - by apply deleteWithTx_loop_skip.
Qed.

(** [addWithTx] turns down a record whose id is in the cache, and leaves
    the transaction and the pool as they were. *)
Lemma addWithTx_rejects_cached tx ux up :
  mutex up = false →
  present (cache_pool up) (Hash ux) →
  addWithTx tx ux up
  = Returns (tx, (SHA256_zero, Some (insert_twice (Hash ux)))) up.
Proof.
  intros Hfree [x Hx]. unfold addWithTx, mbind, M_bind.
  rewrite Contains_free by done. unfold map_index. by rewrite Hx.
Qed.

(** With a writable transaction, [addWithTx] takes any record whose id is
    not in the cache, whatever the output region already holds. *)
Lemma addWithTx_accepts_uncached tx ux up :
  mutex up = false →
  writable tx = true →
  cache_pool up !! key ux = None →
  addWithTx tx ux up
  = Returns (mkTx true (<[Hash ux := Serialize ux]> (unspent_pool tx))
               (<[xorhashKey := Xor (getXorHash tx).1 (SnapshotHash ux)]>
                  (unspent_meta tx)),
             (Xor (getXorHash tx).1 (SnapshotHash ux), None)) up.
Proof.
  intros Hfree Hw Hx. unfold addWithTx, mbind, M_bind.
  rewrite Contains_free by done. unfold map_index. unfold key in Hx. rewrite Hx.
  simpl. unfold getXorHash.
  destruct (unspent_meta tx !! xorhashKey); simpl;
    unfold setXorHash, meta_Put, uxOuts_set, pool_Put; rewrite Hw; simpl;
    by rewrite ?Hw.
Qed.

End Store.

(** ** Construction *)

Section Construction.
Context `{Externals}.

Lemma syncCache_ForEach_inv kvs :
  ∀ up up',
    syncCache_ForEach kvs up = Returns None up' →
    Forall (λ kv, is_Some (decode kv.2)) kvs
    ∧ up' = set_cache_pool
              (λ m, foldl (λ m kv, <[kv.1 := kv.2]> m) m (loaded kvs)) up.
Proof.
  induction kvs as [|[k v] rest IH]; intros up up' Hrun; simpl in Hrun.
  - apply ret_Returns in Hrun as [_ <-]. split; [done|]. by destruct up.
  - unfold loaded, decode in *; simpl.
    destruct (DeserializeRaw v) as [ux|e] eqn:Hv; [|done].
    run. apply IH in Hrun as [Hall ->]. split; [|done].
    constructor; [|done]. simpl. by rewrite Hv.
Qed.

Lemma syncCache_ForEach_returns kvs :
  ∀ up, Forall (λ kv, is_Some (decode kv.2)) kvs →
        ∃ up', syncCache_ForEach kvs up = Returns None up'.
Proof.
  induction kvs as [|[k v] rest IH]; intros up Hall; simpl.
  - by eexists.
  - apply Forall_cons in Hall as [[ux Hux] Hall]. unfold decode in Hux. simpl in Hux.
    destruct (DeserializeRaw v); [|done]. run. by apply IH.
Qed.

Lemma foldl_insert_list_to_map (l : list (string * UxOut)) :
  ∀ m : gmap string UxOut,
    NoDup l.*1 →
    foldl (λ m kv, <[kv.1 := kv.2]> m) m l = list_to_map l ∪ m.
Proof.
  induction l as [|[k x] l IH]; intros m Hnd; simpl.
  - by rewrite (left_id_L ∅ (∪)).
  - rewrite fmap_cons in Hnd. apply NoDup_cons in Hnd as [Hk Hnd].
    rewrite IH by done. rewrite <- insert_union_l.
    symmetry. apply insert_union_r. by apply not_elem_of_list_to_map_1.
Qed.

Lemma loaded_cons k v ux rest :
  decode v = Some ux → loaded ((k, v) :: rest) = (Hex k, ux) :: loaded rest.
Proof. intros Hux. unfold loaded. simpl. by rewrite Hux. Qed.

Lemma loaded_all kvs :
  Forall (λ kv : SHA256 * bytes, is_Some (decode kv.2)) kvs →
  (loaded kvs).*1 = Hex <$> kvs.*1 ∧ (loaded kvs).*2 = omap decode kvs.*2.
Proof.
  induction 1 as [|[k v] rest [ux Hux] _ [IH1 IH2]]; [done|].
  simpl in Hux. rewrite (loaded_cons _ _ _ _ Hux), !fmap_cons, IH1, IH2.
  simpl. by rewrite Hux.
Qed.

Lemma NewUnspentPool_inv d up s :
  NewUnspentPool d = Returns (Some up, None) s →
  let kvs := map_to_list (db_unspent_pool d) in
  Forall (λ kv, is_Some (decode kv.2)) kvs
  ∧ up = mkUnspentPool d
           (foldl (λ m kv, <[kv.1 := kv.2]> m) ∅ (loaded kvs))
           (default SHA256_zero (db_unspent_meta d !! xorhashKey)) false.
Proof.
  unfold NewUnspentPool, bucket_New. destruct (db_opened d); [|done].
  unfold syncCache. unfold mbind at 1, M_bind at 1, gets. simpl.
  unfold mbind at 1, M_bind at 1.
  destruct (syncCache_ForEach _ _) as [[e|] up1| |] eqn:Hscan; try done.
  apply syncCache_ForEach_inv in Hscan as [Hall ->].
  unfold getUxHashFromDB; run.
  destruct (db_unspent_meta d !! xorhashKey); simpl; by intros [= <- <-].
Qed.

(** What the cache of a freshly built pool reads, and under which keys. *)
Lemma NewUnspentPool_cache d up s :
  Inj (=) (=) Hex →
  NewUnspentPool d = Returns (Some up, None) s →
  (∀ id, cache_pool up !! Hex id = db_unspent_pool d !! id ≫= decode)
  ∧ (∀ k ux, cache_pool up !! k = Some ux →
             ∃ id, k = Hex id ∧ is_Some (db_unspent_pool d !! id))
  ∧ range_values (cache_pool up)
    ≡ₚ omap decode (map_to_list (db_unspent_pool d)).*2
  ∧ size (cache_pool up) = size (db_unspent_pool d)
  ∧ cache_uxhash up = default SHA256_zero (db_unspent_meta d !! xorhashKey)
  ∧ mutex up = false.
Proof.
  intros Hinj Hnew. apply NewUnspentPool_inv in Hnew as [Hall ->]. simpl.
  set (kvs := map_to_list (db_unspent_pool d)) in *.
  destruct (loaded_all kvs Hall) as [Hk Hv].
  assert (NoDup (loaded kvs).*1) as Hnd.
  { rewrite Hk. apply NoDup_fmap_2; [done|]. apply NoDup_fst_map_to_list. }
  rewrite foldl_insert_list_to_map, (right_id_L ∅ (∪)) by done.
  assert (∀ k ux, (k, ux) ∈ loaded kvs ↔
            ∃ id v, k = Hex id ∧ db_unspent_pool d !! id = Some v
                    ∧ decode v = Some ux) as Hmem.
  { intros k ux. unfold loaded. rewrite list_elem_of_omap. split.
    - intros ([id v] & Hin & Heq). simpl in Heq.
      destruct (decode v) as [ux'|] eqn:Hd; simplify_eq/=.
      exists id, v. split_and!; [done| |done]. by apply elem_of_map_to_list.
    - intros (id & v & -> & Hlk & Hd). exists (id, v).
      split; [by apply elem_of_map_to_list|]. simpl. by rewrite Hd. }
  split_and!.
  - intros id. destruct (db_unspent_pool d !! id) as [v|] eqn:Hid; simpl.
    + rewrite Forall_forall in Hall.
      destruct (Hall (id, v)) as [ux Hux]; [by apply elem_of_map_to_list|].
      simpl in Hux. rewrite Hux. apply elem_of_list_to_map_1; [done|].
      apply Hmem. by exists id, v.
    + apply not_elem_of_list_to_map_1. rewrite Hk.
      intros (id' & ->%Hinj & Hin)%list_elem_of_fmap.
      apply list_elem_of_fmap in Hin as ([id'' v] & -> & Hin).
      apply elem_of_map_to_list in Hin. simpl in Hid. congruence.
  - intros k ux Hlk. apply elem_of_list_to_map_2, Hmem in Hlk
      as (id & v & -> & Hid & _). exists id. by rewrite Hid.
  - unfold range_values. rewrite map_to_list_to_map by done. by rewrite Hv.
  - rewrite <- !length_map_to_list, map_to_list_to_map by done.
    by rewrite <- (length_fmap fst), Hk, !length_fmap.
  - done.
  - done.
Qed.

(** C6. A pool built by [NewUnspentPool] holds exactly the records of the
    output region: each id reads as the decoded record stored under it,
    the cache has no other key, [GetAll] hands back the stored records (in
    some order), and the cached checksum is the value under the checksum
    key of the meta region, or zero when that key is absent. *)
Theorem NewUnspentPool_mirrors_store d up s :
  Inj (=) (=) Hex →
  NewUnspentPool d = Returns (Some up, None) s →
  (∀ id, cache_pool up !! Hex id = db_unspent_pool d !! id ≫= decode)
  ∧ (∀ k ux, cache_pool up !! k = Some ux →
             ∃ id, k = Hex id ∧ is_Some (db_unspent_pool d !! id))
  ∧ (∃ arr, GetAll up = Returns (arr, None) up
            ∧ arr ≡ₚ omap decode (map_to_list (db_unspent_pool d)).*2
            ∧ length arr = size (db_unspent_pool d))
  ∧ GetUxHash up
    = Returns (default SHA256_zero (db_unspent_meta d !! xorhashKey)) up.
Proof.
  intros Hinj Hnew.
  destruct (NewUnspentPool_cache d up s Hinj Hnew)
    as (Hread & Hkeys & Hall & Hsize & Hsum & Hfree).
  split_and!; [done..| |].
  - rewrite GetAll_free by done. eexists. split_and!; [done..|].
    unfold range_values. by rewrite length_fmap, length_map_to_list.
  - by rewrite GetUxHash_free, Hsum.
Qed.

Lemma NewUnspentPool_returns d :
  db_opened d = true →
  (∀ id v, db_unspent_pool d !! id = Some v → is_Some (decode v)) →
  ∃ up, NewUnspentPool d = Returns (Some up, None) up.
Proof.
  intros Hopen Hdec. unfold NewUnspentPool, bucket_New. rewrite Hopen.
  unfold syncCache. unfold mbind at 1, M_bind at 1, gets. simpl.
  unfold mbind at 1, M_bind at 1.
  destruct (syncCache_ForEach_returns (map_to_list (db_unspent_pool d))
    (mkUnspentPool d ∅ SHA256_zero false)) as [up1 ->].
  { apply Forall_forall. intros [id v] Hin%elem_of_map_to_list. by eapply Hdec. }
  unfold getUxHashFromDB; run.
  destruct (db_unspent_meta (db up1) !! xorhashKey); simpl; by eexists.
Qed.

End Construction.

(** ** The query surface *)

Section QueryClaims.
Context `{Externals}.

(** C7. With the mutex free, [GetArray] either hands back the record of
    every requested id, in request order and with a nil error, or fails
    with the not-found error that names the first requested id missing
    from the cache, and hands back no record. *)
Theorem GetArray_all_or_first_missing (hashes : list SHA256) (up : UnspentPool) :
  mutex up = false →
  (∃ uxs, Forall2 (λ h ux, cache_pool up !! Hex h = Some ux) hashes uxs
          ∧ GetArray hashes up = Returns (uxs, None) up)
  ∨ (∃ l1 h l2, hashes = l1 ++ h :: l2
                ∧ Forall (present (cache_pool up)) l1
                ∧ cache_pool up !! Hex h = None
                ∧ GetArray hashes up = Returns ([], Some (not_exist h)) up).
Proof.
  intros Hfree. rewrite GetArray_free by done.
  destruct (getArray_loop_spec (cache_pool up) hashes [])
    as [(uxs & Hall & ->)|(l1 & h & l2 & -> & Hl1 & Hh & ->)].
  - left. by exists uxs.
  - right. by exists l1, h, l2.
Qed.

(** C10. [GetAll] has no failing path: whenever it returns, the error of
    its result is nil; it does not panic, and it only fails to return when
    it finds the mutex held. *)
Theorem GetAll_error_is_nil (up : UnspentPool) :
  match GetAll up with
  | Returns (_, err) _ => err = None
  | Blocked => mutex up = true
  | Panics _ => False
  end.
Proof. destruct up as [d m x [|]]; reflexivity. Qed.

End QueryClaims.

(** ** The checksum across a block *)

Lemma Xor_comm (a b : SHA256) : Xor a b = Xor b a.
Proof. apply N.lxor_comm. Qed.

Lemma Xor_assoc (a b c : SHA256) : Xor (Xor a b) c = Xor a (Xor b c).
Proof. apply N.lxor_assoc. Qed.

Lemma Xor_cancel (a b : SHA256) : Xor (Xor a b) a = b.
Proof.
  rewrite (Xor_comm a b), Xor_assoc. unfold Xor.
  by rewrite N.lxor_nilpotent, N.lxor_0_r.
Qed.

Lemma Xor_256_bit (a b : SHA256) :
  (a < 2 ^ 256)%N → (b < 2 ^ 256)%N → (Xor a b < 2 ^ 256)%N.
Proof.
  intros Ha Hb. unfold Xor.
  destruct (decide (N.lxor a b = 0%N)) as [->|Hne]; [done|].
  apply N.log2_lt_pow2; [lia|].
  eapply N.le_lt_trans; [apply N.log2_lxor|].
  apply N.max_lub_lt.
  - destruct (decide (a = 0%N)) as [->|Ha0]; [done|]. apply N.log2_lt_pow2; lia.
  - destruct (decide (b = 0%N)) as [->|Hb0]; [done|]. apply N.log2_lt_pow2; lia.
Qed.

Section Checksum.
Context `{Externals}.

Lemma xor_all_perm (l l' : list UxOut) : l ≡ₚ l' → xor_all l = xor_all l'.
Proof.
  induction 1 as [|x l l' _ IH|x y l|l l' l'' _ IH1 _ IH2]; simpl.
  - done.
  - by rewrite IH.
  - rewrite <- !Xor_assoc. by rewrite (Xor_comm (SnapshotHash y)).
  - by rewrite IH1.
Qed.

Lemma checksum_of_insert (m : gmap string UxOut) k ux :
  m !! k = None →
  checksum_of (<[k := ux]> m) = Xor (SnapshotHash ux) (checksum_of m).
Proof.
  intros Hk. unfold checksum_of, range_values.
  by rewrite (xor_all_perm _ _ (fmap_Permutation snd _ _ (map_to_list_insert m k ux Hk))).
Qed.

Lemma checksum_of_delete (m : gmap string UxOut) k ux :
  m !! k = Some ux →
  checksum_of (delete k m) = Xor (checksum_of m) (SnapshotHash ux).
Proof.
  intros Hk. rewrite <- (insert_delete_id m k ux) at 2 by done.
  rewrite checksum_of_insert by apply lookup_delete_eq.
  by rewrite Xor_cancel.
Qed.

Lemma cache_add_lookup_ext uxs : ∀ (X Y : gmap string UxOut) k,
  X !! k = Y !! k → cache_add uxs X !! k = cache_add uxs Y !! k.
Proof.
  induction uxs as [|ux uxs IH]; intros X Y k Hk; [done|].
  apply (IH (<[key ux := ux]> X) (<[key ux := ux]> Y)).
  destruct (decide (key ux = k)) as [->|Hne].
  - by rewrite !lookup_insert_eq.
  - by rewrite !lookup_insert_ne.
Qed.

(** Deleting pooled records commutes with adding records that are not
    pooled. *)
Lemma cache_delete_add_comm (m : gmap string UxOut) D A uxs :
  (∀ ux, ux ∈ uxs → key ux ∉ key <$> A) →
  cache_delete uxs (cache_add A (cache_delete D m))
  = cache_add A (cache_delete (D ++ uxs) m).
Proof.
  intros Hdisj. apply map_eq; intros k.
  unfold cache_delete at 3. rewrite foldl_app. fold (cache_delete D m).
  fold (cache_delete uxs (cache_delete D m)).
  rewrite lookup_cache_delete. case_decide as Hk.
  - apply list_elem_of_fmap in Hk as (ux & -> & Hux).
    rewrite lookup_cache_add_notin by auto.
    rewrite lookup_cache_delete, decide_True; [done|].
    by apply list_elem_of_fmap_2.
  - apply cache_add_lookup_ext.
    by rewrite (lookup_cache_delete uxs), decide_False.
Qed.

Lemma cache_add_app (m : gmap string UxOut) A uxs :
  cache_add uxs (cache_add A m) = cache_add (A ++ uxs) m.
Proof. unfold cache_add. by rewrite foldl_app. Qed.

Hypothesis Hex_inj : Inj (=) (=) Hex.

Lemma in_sync_delete tx C id v ux :
  in_sync tx C →
  unspent_pool tx !! id = Some v → decode v = Some ux →
  in_sync (mkTx true (delete id (unspent_pool tx))
             (<[xorhashKey := Xor (getXorHash tx).1 (SnapshotHash ux)]>
                (unspent_meta tx)))
          (delete (Hex id) C).
Proof.
  intros [Hstore Hmeta] Hv Hux. split; simpl.
  - intros id'. destruct (decide (id = id')) as [->|Hne].
    + by rewrite !lookup_delete_eq.
    + rewrite !lookup_delete_ne; [apply Hstore|done|]. by intros ?%Hex_inj.
  - unfold getXorHash at 1. simpl. rewrite lookup_insert_eq. simpl.
    rewrite Hmeta. symmetry. apply checksum_of_delete.
    by rewrite Hstore, Hv.
Qed.

Lemma deleteWithTx_loop_step tx id rest acc up v ux :
  writable tx = true →
  unspent_pool tx !! id = Some v → DeserializeRaw v = inl ux →
  deleteWithTx_loop tx (id :: rest) acc up
  = deleteWithTx_loop
      (mkTx true (delete id (unspent_pool tx))
         (<[xorhashKey := Xor (getXorHash tx).1 (SnapshotHash ux)]>
            (unspent_meta tx)))
      rest (Xor (getXorHash tx).1 (SnapshotHash ux)) up.
Proof.
  intros Hw Hv Hdec. simpl. unfold uxOuts_get. rewrite Hv, Hdec. simpl.
  unfold getXorHash. destruct (unspent_meta tx !! xorhashKey); run;
    unfold setXorHash, meta_Put, uxOuts_delete, pool_Delete;
    rewrite Hw; simpl; by rewrite ?Hw.
Qed.

Lemma deleteWithTx_loop_sync hashes :
  ∀ uxs tx acc up C tx' h,
    writable tx = true → in_sync tx C →
    Forall2 (λ id ux, key ux = Hex id ∧ ∀ x, C !! Hex id = Some x → x = ux)
            hashes uxs →
    deleteWithTx_loop tx hashes acc up = Returns (tx', (h, None)) up →
    writable tx' = true ∧ in_sync tx' (cache_delete uxs C).
Proof.
  induction hashes as [|id hashes IH];
    intros uxs tx acc up C tx' h Hw Hsync Hall Hrun.
  - apply Forall2_nil_inv_l in Hall as ->.
    apply ret_Returns in Hrun as [[= <- <-] _]. done.
  - apply Forall2_cons_inv_l in Hall as (ux & uxs' & [Hkey Hsame] & Hall & ->).
    change (cache_delete (ux :: uxs') C)
      with (cache_delete uxs' (delete (key ux) C)).
    destruct (uxOuts_get_cases tx id)
      as [[e Hget]|[[Hget Hnone]|(v & ux' & Hget & Hv & Hdec)]].
    + simpl in Hrun. rewrite Hget in Hrun.
      by apply ret_Returns in Hrun as [[=] _].
    + simpl in Hrun. rewrite Hget in Hrun. simpl in Hrun. rewrite delete_id.
      * eapply IH; eauto.
      * rewrite Hkey. destruct Hsync as [Hstore _]. by rewrite Hstore, Hnone.
    + assert (decode v = Some ux') as Hdec' by (unfold decode; by rewrite Hdec).
      assert (ux' = ux) as ->.
      { apply Hsame. destruct Hsync as [Hstore _]. by rewrite Hstore, Hv. }
      pose proof (in_sync_delete _ _ _ _ _ Hsync Hv Hdec') as Hsync'.
      rewrite (deleteWithTx_loop_step _ _ _ _ _ _ _ Hw Hv Hdec) in Hrun.
      rewrite Hkey. eapply IH; [|exact Hsync'| |exact Hrun]; [done|].
      eapply Forall2_impl; [exact Hall|].
      intros id' ux'' [Hk' Hs']. split; [done|].
      intros x [_ Hx]%lookup_delete_Some. by apply Hs'.
Qed.

Lemma in_sync_insert tx C ux :
  DeserializeRaw (Serialize ux) = inl ux →
  in_sync tx C → C !! key ux = None →
  in_sync (mkTx true (<[Hash ux := Serialize ux]> (unspent_pool tx))
             (<[xorhashKey := Xor (getXorHash tx).1 (SnapshotHash ux)]>
                (unspent_meta tx)))
          (<[key ux := ux]> C).
Proof.
  intros Hcodec [Hstore Hmeta] Hnew. split; simpl.
  - intros id. destruct (decide (Hash ux = id)) as [<-|Hne].
    + rewrite !lookup_insert_eq. simpl. unfold decode. by rewrite Hcodec.
    + rewrite !lookup_insert_ne; [apply Hstore|done|].
      unfold key. by intros ?%Hex_inj.
  - unfold getXorHash at 1. simpl. rewrite lookup_insert_eq. simpl.
    rewrite Hmeta, checksum_of_insert by done. apply Xor_comm.
Qed.

Lemma processBlock_add_sync uxs :
  ∀ tx acc up C tx' h up',
    Forall (λ ux, DeserializeRaw (Serialize ux) = inl ux) uxs →
    writable tx = true → in_sync tx C →
    NoDup (key <$> uxs) → Forall (λ ux, C !! key ux = None) uxs →
    processBlock_add tx uxs acc up = Returns (tx', (h, None)) up' →
    writable tx' = true ∧ in_sync tx' (cache_add uxs C)
    ∧ (uxs ≠ [] → h = checksum_of (cache_add uxs C)).
Proof.
  induction uxs as [|ux rest IH];
    intros tx acc up C tx' h up' Hcodec Hw Hsync Hnd Hnew Hrun; simpl in Hrun.
  - apply ret_Returns in Hrun as [[= <- <-] _]. done.
  - apply Forall_cons in Hcodec as [Hcodec Hcodecs].
    rewrite fmap_cons in Hnd. apply NoDup_cons in Hnd as [Hux Hnd].
    apply Forall_cons in Hnew as [Hnew Hrest].
    apply bind_Returns in Hrun as ([tx1 [h1 e1]] & up1 & Hadd & Hrun).
    pose proof (addWithTx_inv _ _ _ _ _ _ _ Hadd) as (-> & Hfree & Hcache).
    destruct e1 as [err|].
    { by apply ret_Returns in Hrun as [[=] _]. }
    rewrite (addWithTx_accepts_uncached tx ux up Hfree Hw (Hcache eq_refl)) in Hadd.
    injection Hadd as <- <-.
    pose proof (in_sync_insert _ _ _ Hcodec Hsync Hnew) as Hsync1.
    change (cache_add (ux :: rest) C) with (cache_add rest (<[key ux := ux]> C)).
    assert (Forall (λ ux0, <[key ux:=ux]> C !! key ux0 = None) rest) as Hrest1.
    { rewrite Forall_forall in *. intros ux0 Hux0.
      rewrite lookup_insert_ne; [by apply Hrest|].
      intros Heq. apply Hux. rewrite Heq. by apply list_elem_of_fmap_2. }
    destruct rest as [|ux2 rest].
    + simpl in Hrun. apply ret_Returns in Hrun as [[= <- <-] _].
      split_and!; [done..|]. intros _. simpl.
      destruct Hsync1 as [_ <-]. unfold getXorHash at 2. simpl.
      by rewrite lookup_insert_eq.
    + destruct (λ Hw1, IH _ _ _ _ _ _ _ Hcodecs Hw1 Hsync1 Hnd Hrest1 Hrun)
        as (Hw' & Hsync' & Hh); [done|].
      split_and!; [done..|]. intros _. by apply Hh.
Qed.

Lemma processBlock_loop_sync head txns :
  ∀ tx l up tx' l' up',
    Forall (λ ux, DeserializeRaw (Serialize ux) = inl ux)
           (block_outputs head txns) →
    cache_wf (cache_pool up) → writable tx = true →
    in_sync tx (cache_add (addUxs l) (cache_delete (delUxs l) (cache_pool up))) →
    NoDup (key <$> (addUxs l ++ block_outputs head txns)) →
    Forall (λ ux, cache_pool up !! key ux = None) (addUxs l) →
    processBlock_loop head tx txns l up = Returns (tx', (l', None)) up' →
    writable tx' = true
    ∧ in_sync tx'
        (cache_add (addUxs l') (cache_delete (delUxs l') (cache_pool up)))
    ∧ (ends_with_output head txns →
       uxHash l' = checksum_of
         (cache_add (addUxs l') (cache_delete (delUxs l') (cache_pool up)))).
Proof.
  induction txns as [|txn rest IH];
    intros tx l up tx' l' up' Hcodec Hwf Hw Hsync Hnd Hnew Hrun; simpl in Hrun.
  - apply ret_Returns in Hrun as [[= <- <-] _]. by split_and!.
  - unfold block_outputs in Hcodec. simpl in Hcodec.
    fold (block_outputs head rest) in Hcodec.
    apply Forall_app in Hcodec as [Hcodec Hcodecs].
    apply bind_Returns in Hrun as ([uxs e1] & up1 & Hget & Hrun).
    apply getArray_inv in Hget as [-> Hins].
    destruct e1 as [err|]; [by apply ret_Returns in Hrun as [[=] _]|].
    specialize (Hins eq_refl).
    apply bind_Returns in Hrun as ([tx1 [h1 e1]] & up1 & Hdel & Hrun).
    destruct (deleteWithTx_loop_returns (In txn) tx SHA256_zero up)
      as (tx2 & r2 & Hdel').
    unfold deleteWithTx in Hdel. pose proof Hdel as Hdel2.
    rewrite Hdel' in Hdel2. injection Hdel2 as Htx Hr Hup. subst tx2 r2 up1.
    destruct e1 as [err|]; [by apply ret_Returns in Hrun as [[=] _]|].
    destruct (fetched_own_key _ _ _ Hwf Hins) as [Hkeys Hown].
    assert (∀ ux, ux ∈ uxs → key ux ∉ key <$> addUxs l) as Hdisj.
    { intros ux Hux (a & Hk & Ha)%list_elem_of_fmap.
      rewrite Forall_forall in Hown, Hnew.
      specialize (Hown _ Hux). specialize (Hnew _ Ha). congruence. }
    destruct (deleteWithTx_loop_sync (In txn) uxs tx SHA256_zero up _ tx1 h1
                Hw Hsync) as [Hw1 Hsync1]; [|done|].
    { clear -Hins Hwf Hdisj Hnew.
      assert (∀ ux, ux ∈ uxs → key ux ∉ key <$> addUxs l) as Hd by done.
      clear Hdisj. induction Hins as [|id ux ids uxs Hid Hins IH]; [done|].
      constructor.
      - pose proof (Hwf _ _ Hid) as Hk. split; [done|]. intros x.
        rewrite lookup_cache_add_notin.
        + rewrite lookup_cache_delete. case_decide; [done|]. congruence.
        + rewrite Hk. apply Hd. by left.
      - apply IH. intros ux' Hux'. apply Hd. by right. }
    rewrite cache_delete_add_comm in Hsync1 by done.
    apply bind_Returns in Hrun as ([tx3 [h3 e3]] & up3 & Hadd & Hrun).
    simpl in Hadd.
    pose proof (processBlock_add_inv _ _ _ _ _ _ _ _ Hadd) as (-> & Hfresh & _ & _).
    destruct e3 as [err|]; [by apply ret_Returns in Hrun as [[=] _]|].
    specialize (Hfresh eq_refl).
    unfold block_outputs in Hnd. simpl in Hnd. fold (block_outputs head rest) in Hnd.
    rewrite fmap_app, fmap_app in Hnd.
    pose proof Hnd as Hnd0.
    apply NoDup_app in Hnd as (HndA & HA_out & Hnd_out).
    apply NoDup_app in Hnd_out as (Hnd_txn & Htxn_rest & Hnd_rest).
    destruct (processBlock_add_sync (CreateUnspents head txn) tx1 (uxHash l) up
                _ tx3 h3 up Hcodec Hw1 Hsync1 Hnd_txn)
      as (Hw3 & Hsync3 & Hh3); [|done|].
    { rewrite Forall_forall in *. intros ux Hux.
      rewrite lookup_cache_add_notin.
      - rewrite lookup_cache_delete. case_decide; [done|]. by apply Hfresh.
      - intros Hin. apply (HA_out _ Hin). apply elem_of_app. left.
        by apply list_elem_of_fmap_2. }
    rewrite cache_add_app in Hsync3, Hh3.
    simpl in Hrun.
    destruct (λ H1 H2, IH tx3
                (mkLocals (delUxs l ++ uxs)
                   (addUxs l ++ CreateUnspents head txn) h3)
                up tx' l' up' Hcodecs Hwf Hw3 Hsync3 H1 H2 Hrun)
      as (Hw' & Hsync' & Hh').
    { simpl. by rewrite !fmap_app, <- app_assoc. }
    { simpl. apply Forall_app. split; [done|]. done. }
    split_and!; [done..|].
    unfold ends_with_output. destruct rest as [|txn2 rest].
    + simpl. intros Hout. simpl in Hrun.
      apply ret_Returns in Hrun as [[= <- <-] _]. simpl. by apply Hh3.
    + intros Hlast. apply Hh'. unfold ends_with_output.
      by rewrite last_cons_cons in Hlast.
Qed.

(** A block whose last transaction creates an output, and whose created
    outputs have pairwise distinct ids, leaves the transaction and the
    cache in agreement and the cached checksum equal to the XOR over the
    cache. *)
Lemma apply_block_keeps_checksum b tx up tx' rb up' :
  let txns := Transactions (BlockBody_ b) in
  cache_wf (cache_pool up) →
  writable tx = true →
  in_sync tx (cache_pool up) →
  NoDup (Hash <$> block_outputs (BlockHead b) txns) →
  Forall (λ ux, DeserializeRaw (Serialize ux) = inl ux)
         (block_outputs (BlockHead b) txns) →
  processBlock b tx up = Returns (tx', (rb, None)) up' →
  in_sync tx' (cache_pool up')
  ∧ (ends_with_output (BlockHead b) txns →
     GetUxHash up' = Returns (checksum_of (cache_pool up')) up'
     ∧ ∃ arr, GetAll up' = Returns (arr, None) up'
              ∧ cache_uxhash up' = xor_all arr).
Proof.
  intros txns Hwf Hw Hsync Hnd Hcodec Hrun.
  apply processBlock_success in Hrun as (l & Hloop & Hfree & -> & _).
  destruct (λ H1 H2, processBlock_loop_sync (BlockHead b) txns tx
              (mkLocals [] [] SHA256_zero) up tx' l up Hcodec Hwf Hw Hsync
              H1 H2 Hloop)
    as (_ & Hsync' & Hh).
  { simpl. unfold key. change (λ ux, Hex (Hash ux)) with (Hex ∘ Hash).
    rewrite list_fmap_compose. by apply NoDup_fmap_2. }
  { done. }
  simpl. split; [done|]. intros Hlast.
  rewrite GetUxHash_free, GetAll_free by done. simpl.
  rewrite (Hh Hlast). split; [done|]. by eexists.
Qed.

(** X19. A block that creates no output leaves the zero value as cached
    checksum, whatever the cache holds. *)
Lemma apply_block_without_outputs b tx up tx' rb up' :
  block_outputs (BlockHead b) (Transactions (BlockBody_ b)) = [] →
  processBlock b tx up = Returns (tx', (rb, None)) up' →
  GetUxHash up' = Returns SHA256_zero up'.
Proof.
  intros Hnone Hrun. apply processBlock_inv in Hrun; simpl in Hrun.
  destruct Hrun as (_ & dels & h & _ & _ & Hh & -> & _).
  rewrite GetUxHash_free by done. simpl. by rewrite Hh.
Qed.

(** X20. Well-keyedness is an invariant.  The scan of a well-keyed output
    region establishes it: every record [NewUnspentPool] caches sits
    under the hex string of its own hash. *)
Lemma NewUnspentPool_wf d up s :
  store_wf (db_unspent_pool d) →
  NewUnspentPool d = Returns (Some up, None) s →
  cache_wf (cache_pool up).
Proof.
  intros Hstore Hnew k ux Hk.
  destruct (NewUnspentPool_cache d up s Hex_inj Hnew)
    as (Hread & Hkeys & _).
  destruct (Hkeys _ _ Hk) as (id & -> & [v Hv]).
  rewrite Hread, Hv in Hk. simpl in Hk.
  destruct (Hstore _ _ Hv) as (ux' & Hdec & <-).
  unfold decode in Hk. rewrite Hdec in Hk. by injection Hk as ->.
Qed.

(** X21. [processBlock] keeps the cache well-keyed, whether the block is
    applied or turned down. *)
Lemma processBlock_wf b tx up tx' rb e up' :
  cache_wf (cache_pool up) →
  processBlock b tx up = Returns (tx', (rb, e)) up' →
  cache_wf (cache_pool up').
Proof.
  intros Hwf Hrun. apply processBlock_inv in Hrun. destruct e as [err|].
  - by destruct Hrun as [-> _].
  - simpl in Hrun. destruct Hrun as (_ & dels & h & _ & _ & _ & -> & _).
    simpl. by apply cache_wf_add, cache_wf_delete.
Qed.

End Checksum.


Lemma demo_in_sync_store uxs :
  Forall (λ ux, demo_DeserializeRaw (demo_Serialize ux) = inl ux) uxs →
  ∀ id, cache_pool (demo_up uxs) !! demo_Hex id
        = unspent_pool (demo_tx uxs) !! id ≫= decode (H:=demo).
Proof.
  intros Hcodec id.
  unfold demo_up, demo_tx, demo_records, cache_pool, unspent_pool.
  induction Hcodec as [|ux uxs Hux _ IH]; [done|].
  rewrite !fmap_cons. cbn [list_to_map foldr fst snd].
  destruct (decide (demo_Hash ux = id)) as [<-|Hne].
  - rewrite !lookup_insert_eq. cbn [mbind option_bind]. unfold decode.
    cbn [DeserializeRaw Serialize demo]. by rewrite Hux.
  - rewrite !lookup_insert_ne; [done|done|]. by intros ?%demo_Hex_inj.
Qed.

(** The small instance meets the hypotheses of
    [apply_block_keeps_checksum], on the block that spends A and creates
    two outputs. *)
Lemma apply_block_keeps_checksum_demo :
  in_sync (H:=demo) (outcome_tx run_plain) (cache_pool (outcome_pool run_plain))
  ∧ GetUxHash (outcome_pool run_plain)
    = Returns (checksum_of (H:=demo) (cache_pool (outcome_pool run_plain)))
              (outcome_pool run_plain).
Proof.
  assert (run_plain
          = Returns (outcome_tx run_plain, (outcome_rollback run_plain, None))
                    (outcome_pool run_plain)) as Hrun by (vm_compute; reflexivity).
  assert (in_sync (H:=demo) (demo_tx [uxA; uxB]) (cache_pool (demo_up [uxA; uxB])))
    as Hsync.
  { split; [|vm_compute; reflexivity].
    apply demo_in_sync_store.
    repeat (constructor; [vm_compute; reflexivity|]). constructor. }
  assert (NoDup (demo_Hash <$>
                   block_outputs (H:=demo) (BlockHead blk_plain)
                     (Transactions (BlockBody_ blk_plain)))) as Hnd.
  { apply (bool_decide_unpack _). vm_compute. exact I. }
  assert (Forall (λ ux, demo_DeserializeRaw (demo_Serialize ux) = inl ux)
            (block_outputs (H:=demo) (BlockHead blk_plain)
               (Transactions (BlockBody_ blk_plain)))) as Hcodec.
  { repeat (constructor; [vm_compute; reflexivity|]). constructor. }
  destruct (apply_block_keeps_checksum (H:=demo) demo_Hex_inj
              blk_plain (demo_tx [uxA; uxB]) (demo_up [uxA; uxB]) _ _ _
              (demo_up_wf _) eq_refl Hsync Hnd Hcodec Hrun) as [Hsync' Hsum].
  split; [exact Hsync'|].
  assert (ends_with_output (H:=demo) (BlockHead blk_plain)
            (Transactions (BlockBody_ blk_plain))) as Hlast.
  { vm_compute. discriminate. }
  destruct (Hsum Hlast) as [Hux _]. exact Hux.
Qed.

(** ** The claims on the small instance *)

Ltac by_run := vm_compute; reflexivity.

Lemma processBlock_error_keeps_cache_witness :
  run_missing
  = Returns (outcome_tx run_missing,
             (outcome_rollback run_missing, Some (not_exist (H:=demo) 99%N)))
            (outcome_pool run_missing)
  ∧ cache_pool (outcome_pool run_missing) = cache_pool (demo_up [uxA])
  ∧ cache_uxhash (outcome_pool run_missing) = cache_uxhash (demo_up [uxA])
  ∧ outcome_pool run_missing = demo_up [uxA]
  ∧ outcome_rollback run_missing = mret tt.
Proof.
  assert (run_missing
          = Returns (outcome_tx run_missing,
                     (outcome_rollback run_missing,
                      Some (not_exist (H:=demo) 99%N)))
                    (outcome_pool run_missing)) as Hrun by by_run.
  split; [exact Hrun|].
  exact (processBlock_error_keeps_cache (H:=demo) _ _ _ _ _ _ _ Hrun).
Defined.

Lemma undo_restores_pool_witness :
  cache_wf (H:=demo) (cache_pool (demo_up [uxA; uxB]))
  ∧ run_plain
    = Returns (outcome_tx run_plain, (outcome_rollback run_plain, None))
              (outcome_pool run_plain)
  ∧ ∃ up'', outcome_rollback run_plain (outcome_pool run_plain) = Returns tt up''
      ∧ cache_pool up'' = cache_pool (demo_up [uxA; uxB])
      ∧ cache_uxhash up'' = cache_uxhash (demo_up [uxA; uxB])
      ∧ GetAll up'' = GetAll (demo_up [uxA; uxB])
      ∧ Len up'' = Len (demo_up [uxA; uxB])
      ∧ (∀ id, Contains (H:=demo) id up''
               = Contains (H:=demo) id (demo_up [uxA; uxB]))
      ∧ GetUxHash up'' = GetUxHash (demo_up [uxA; uxB]).
Proof.
  assert (run_plain
          = Returns (outcome_tx run_plain, (outcome_rollback run_plain, None))
                    (outcome_pool run_plain)) as Hrun by by_run.
  split; [apply demo_up_wf|]. split; [exact Hrun|].
  exact (undo_restores_pool (H:=demo) _ _ _ _ _ _ (demo_up_wf _) Hrun).
Defined.

Lemma apply_block_effect_witness :
  Inj (=) (=) demo_Hex
  ∧ cache_wf (H:=demo) (cache_pool (demo_up [uxA; uxB]))
  ∧ run_plain
    = Returns (outcome_tx run_plain, (outcome_rollback run_plain, None))
              (outcome_pool run_plain)
  ∧ Forall (λ id, Contains (H:=demo) id (outcome_pool run_plain)
                  = Returns false (outcome_pool run_plain))
           (block_inputs (Transactions (BlockBody_ blk_plain)))
  ∧ Forall (λ ux, Contains (H:=demo) (demo_Hash ux) (outcome_pool run_plain)
                  = Returns true (outcome_pool run_plain))
           (block_outputs (H:=demo) (BlockHead blk_plain)
              (Transactions (BlockBody_ blk_plain)))
  ∧ Len_changes_by (demo_up [uxA; uxB]) (outcome_pool run_plain) 2 1.
Proof.
  assert (run_plain
          = Returns (outcome_tx run_plain, (outcome_rollback run_plain, None))
                    (outcome_pool run_plain)) as Hrun by by_run.
  destruct (apply_block_effect (H:=demo) _ _ _ _ _ _
              demo_Hex_inj (demo_up_wf _) Hrun) as (Hins & Houts & Hlen).
  split; [exact demo_Hex_inj|]. split; [apply demo_up_wf|].
  split; [exact Hrun|]. split; [exact Hins|]. split; [exact Houts|].
  apply Hlen; apply (bool_decide_unpack _); vm_compute; exact I.
Defined.

(** C5 as stated fails: on a pool holding A, B and C, a block whose two
    transactions both spend A and create one output each is applied with
    success, all its inputs being pooled beforehand; [Len] goes from 3 to
    4, not to 3 + 2 - 2. *)
Lemma double_spend_len_counterexample :
  cache_wf (H:=demo) (cache_pool (demo_up [uxA; uxB; uxC]))
  ∧ Forall (present (H:=demo) (cache_pool (demo_up [uxA; uxB; uxC])))
           (block_inputs (Transactions (BlockBody_ blk_double_spend)))
  ∧ run_double_spend
    = Returns (outcome_tx run_double_spend,
               (outcome_rollback run_double_spend, None))
              (outcome_pool run_double_spend)
  ∧ ¬ Len_changes_by (demo_up [uxA; uxB; uxC]) (outcome_pool run_double_spend)
        (length (block_outputs (H:=demo) (BlockHead blk_double_spend)
                   (Transactions (BlockBody_ blk_double_spend))))
        (length (block_inputs (Transactions (BlockBody_ blk_double_spend)))).
Proof.
  split; [apply demo_up_wf|]. split.
  { repeat constructor; by eexists. }
  split; [by_run|].
  intros (n & n' & Hn & Hn' & Heq).
  vm_compute in Hn, Hn'. injection Hn as <-. injection Hn' as <-.
  vm_compute in Heq. discriminate Heq.
Qed.

Lemma NewUnspentPool_mirrors_store_witness :
  Inj (=) (=) demo_Hex
  ∧ built = Returns (Some (outcome_pool built), None) (outcome_pool built)
  ∧ (∀ id, cache_pool (outcome_pool built) !! demo_Hex id
           = db_unspent_pool (demo_db [uxA; uxB]) !! id ≫= decode (H:=demo))
  ∧ (∀ k ux, cache_pool (outcome_pool built) !! k = Some ux →
             ∃ id, k = demo_Hex id
                   ∧ is_Some (db_unspent_pool (demo_db [uxA; uxB]) !! id))
  ∧ (∃ arr, GetAll (outcome_pool built) = Returns (arr, None) (outcome_pool built)
            ∧ arr ≡ₚ omap (decode (H:=demo))
                       (map_to_list (db_unspent_pool (demo_db [uxA; uxB]))).*2
            ∧ length arr = size (db_unspent_pool (demo_db [uxA; uxB])))
  ∧ GetUxHash (outcome_pool built)
    = Returns (default SHA256_zero
                 (db_unspent_meta (demo_db [uxA; uxB]) !! xorhashKey))
              (outcome_pool built).
Proof.
  assert (built = Returns (Some (outcome_pool built), None) (outcome_pool built))
    as Hrun by by_run.
  split; [exact demo_Hex_inj|]. split; [exact Hrun|].
  exact (NewUnspentPool_mirrors_store (H:=demo) _ _ _ demo_Hex_inj Hrun).
Defined.

Lemma GetArray_all_or_first_missing_witness :
  mutex (demo_up [uxA; uxB]) = false
  ∧ ((∃ uxs, Forall2 (λ h ux, cache_pool (demo_up [uxA; uxB]) !! demo_Hex h = Some ux)
               [idA; 99%N; 98%N] uxs
             ∧ GetArray (H:=demo) [idA; 99%N; 98%N] (demo_up [uxA; uxB])
               = Returns (uxs, None) (demo_up [uxA; uxB]))
     ∨ (∃ l1 h l2, [idA; 99%N; 98%N] = l1 ++ h :: l2
          ∧ Forall (present (H:=demo) (cache_pool (demo_up [uxA; uxB]))) l1
          ∧ cache_pool (demo_up [uxA; uxB]) !! demo_Hex h = None
          ∧ GetArray (H:=demo) [idA; 99%N; 98%N] (demo_up [uxA; uxB])
            = Returns ([], Some (not_exist (H:=demo) h)) (demo_up [uxA; uxB]))).
Proof.
  split; [reflexivity|].
  apply (GetArray_all_or_first_missing (H:=demo)). reflexivity.
Defined.

Lemma deleteWithTx_skips_absent_witness :
  unspent_pool (demo_tx [uxA; uxB]) !! 99%N = None
  ∧ deleteWithTx (H:=demo) (demo_tx [uxA; uxB]) [99%N] (demo_up [uxA; uxB])
    = Returns (demo_tx [uxA; uxB], (SHA256_zero, None)) (demo_up [uxA; uxB])
  ∧ deleteWithTx (H:=demo) (demo_tx [uxA; uxB]) ([idA] ++ 99%N :: [demo_Hash uxB])
      (demo_up [uxA; uxB])
    = deleteWithTx (H:=demo) (demo_tx [uxA; uxB]) ([idA] ++ [demo_Hash uxB])
        (demo_up [uxA; uxB]).
Proof.
  split; [by_run|].
  apply (deleteWithTx_skips_absent (H:=demo)). by_run.
Defined.

(** C1, at a failing input.  The pool holds A and B and its checksum is
    the XOR of their snapshot hashes.  A block that spends A and creates
    nothing is applied with success: the checksum region of the
    transaction then holds the snapshot hash of B, the cache holds B alone,
    and the cached checksum is zero. *)
Theorem spend_only_block_resets_checksum :
  GetUxHash (demo_up [uxA; uxB])
  = Returns (xor_all (H:=demo) (range_values (cache_pool (demo_up [uxA; uxB]))))
            (demo_up [uxA; uxB])
  ∧ run_spend_only
    = Returns (outcome_tx run_spend_only, (outcome_rollback run_spend_only, None))
              (outcome_pool run_spend_only)
  ∧ GetAll (outcome_pool run_spend_only)
    = Returns ([uxB], None) (outcome_pool run_spend_only)
  ∧ GetUxHash (outcome_pool run_spend_only)
    = Returns SHA256_zero (outcome_pool run_spend_only)
  ∧ getXorHash (outcome_tx run_spend_only) = (demo_SnapshotHash uxB, None)
  ∧ xor_all (H:=demo) [uxB] = demo_SnapshotHash uxB
  ∧ demo_SnapshotHash uxB ≠ SHA256_zero.
Proof. split_and!; try by_run. vm_compute. discriminate. Qed.

(** C3, at a failing input.  The created output of [blk_twin_outputs] is
    declared twice.  The first [addWithTx] files it in the output region;
    the second one, for the id that is now stored, reports no error either
    and XORs the snapshot hash into the checksum region a second time, so
    the region is back at its value before the two inserts.  The whole
    block is applied with success. *)
Theorem twin_output_inserted_twice :
  block_outputs (H:=demo) (BlockHead blk_twin_outputs)
    (Transactions (BlockBody_ blk_twin_outputs)) = [ux_twin; ux_twin]
  ∧ add_once
    = Returns (outcome_tx add_once,
               (Xor (demo_SnapshotHash uxB) (demo_SnapshotHash ux_twin), None))
              (demo_up [uxA; uxB])
  ∧ unspent_pool (outcome_tx add_once) !! demo_Hash ux_twin
    = Some (demo_Serialize ux_twin)
  ∧ add_twice
    = Returns (outcome_tx add_twice, (demo_SnapshotHash uxB, None))
              (demo_up [uxA; uxB])
  ∧ unspent_pool (outcome_tx add_twice) = unspent_pool (outcome_tx add_once)
  ∧ getXorHash (outcome_tx add_twice) = getXorHash (demo_tx [uxB])
  ∧ run_twin_outputs
    = Returns (outcome_tx add_twice, (outcome_rollback run_twin_outputs, None))
              (outcome_pool run_twin_outputs)
  ∧ GetUxHash (outcome_pool run_twin_outputs)
    = Returns (demo_SnapshotHash uxB) (outcome_pool run_twin_outputs)
  ∧ Contains (H:=demo) (demo_Hash ux_twin) (outcome_pool run_twin_outputs)
    = Returns true (outcome_pool run_twin_outputs).
Proof. split_and!; by_run. Qed.

(** C9, at a failing input.  With A in the pool and the mutex free,
    [Collides] on the id of A returns true and the mutex is still held
    when it returns; the next query of the same goroutine, here [Len] and
    [Contains], waits on it forever.  On a miss the mutex is released. *)
Theorem Collides_hit_leaves_mutex_held :
  mutex (demo_up [uxA; uxB]) = false
  ∧ Collides (H:=demo) [idA] (demo_up [uxA; uxB])
    = Returns true (set_mutex true (demo_up [uxA; uxB]))
  ∧ mutex (outcome_pool (Collides (H:=demo) [idA] (demo_up [uxA; uxB]))) = true
  ∧ Len (outcome_pool (Collides (H:=demo) [idA] (demo_up [uxA; uxB]))) = Blocked
  ∧ Contains (H:=demo) idA
      (outcome_pool (Collides (H:=demo) [idA] (demo_up [uxA; uxB]))) = Blocked
  ∧ Collides (H:=demo) [99%N] (demo_up [uxA; uxB])
    = Returns false (demo_up [uxA; uxB]).
Proof. split_and!; by_run. Qed.

(** * Further properties of the pool *)

(** ** Queries against one another *)

Section QueriesTogether.
Context `{Externals}.


(** X1. With the mutex free, [Get], [Contains] and [GetArray] on one id
    agree: either the id is cached, [Get] hands back its record with true,
    [Contains] says true and [GetArray] returns that record; or it is not,
    [Get] hands back the zero record with false, [Contains] says false and
    [GetArray] fails naming the id. *)
Theorem Get_Contains_GetArray_agree h (up : UnspentPool) :
  mutex up = false →
  ∃ ux ok,
    Get h up = Returns (ux, ok) up
    ∧ Contains h up = Returns ok up
    ∧ (ok = true →
       cache_pool up !! Hex h = Some ux
       ∧ GetArray [h] up = Returns ([ux], None) up)
    ∧ (ok = false →
       cache_pool up !! Hex h = None ∧ ux = UxOut_zero
       ∧ GetArray [h] up = Returns ([], Some (not_exist h)) up).
Proof.
  intros Hfree. rewrite Get_free, Contains_free, GetArray_free by done.
  simpl. unfold map_index.
  destruct (cache_pool up !! Hex h) as [ux|]; simpl;
    eexists _, _; split_and!; done.
Qed.

(** X2. With the mutex free, [Len] is the number of records [GetAll]
    hands back. *)
Theorem Len_counts_GetAll (up : UnspentPool) :
  mutex up = false →
  ∃ arr, GetAll up = Returns (arr, None) up
         ∧ Len up = Returns (N.of_nat (length arr)) up.
Proof.
  intros Hfree. rewrite GetAll_free, Len_free by done.
  eexists. split; [done|]. unfold range_values.
  by rewrite length_fmap, length_map_to_list.
Qed.

Lemma range_values_keys (m : gmap string UxOut) :
  cache_wf m → key <$> range_values m = (map_to_list m).*1.
Proof.
  intros Hwf. unfold range_values. rewrite <- list_fmap_compose.
  apply list_fmap_ext. intros i [k ux] Hi. simpl.
  symmetry. apply Hwf. apply elem_of_map_to_list.
  by eapply list_elem_of_lookup_2.
Qed.

(** X3. On a well-keyed cache with the mutex free, [GetAll] lists every
    pooled record once: no two of its records share an id, and a record is
    in the list exactly when [Get] on its id finds that very record. *)
Theorem GetAll_lists_each_id_once (up : UnspentPool) :
  mutex up = false →
  cache_wf (cache_pool up) →
  ∃ arr, GetAll up = Returns (arr, None) up
         ∧ NoDup (Hash <$> arr)
         ∧ ∀ ux, ux ∈ arr ↔ Get (Hash ux) up = Returns (ux, true) up.
Proof.
  intros Hfree Hwf. rewrite GetAll_free by done. eexists. split; [done|]. split.
  - apply (NoDup_fmap_1 Hex). rewrite <- list_fmap_compose.
    change (Hex ∘ Hash) with key. rewrite range_values_keys by done.
    apply NoDup_fst_map_to_list.
  - intros ux. rewrite Get_free by done. unfold range_values, map_index. split.
    + intros ([k ux'] & -> & Hin)%list_elem_of_fmap.
      apply elem_of_map_to_list in Hin. simpl.
      rewrite (Hwf _ _ Hin) in Hin. unfold key in Hin. by rewrite Hin.
    + destruct (cache_pool up !! Hex (Hash ux)) as [ux'|] eqn:Hlk; [|done].
      intros [= ->]. apply list_elem_of_fmap. exists (Hex (Hash ux), ux).
      split; [done|]. by apply elem_of_map_to_list.
Qed.





Lemma Collides_loop_result hashes (up : UnspentPool) :
  mutex up = true →
  ∃ b : bool, Collides_loop hashes up
       = Returns b (if b then up else set_mutex false up)
       ∧ (b = true ↔ Exists (present (cache_pool up)) hashes).
Proof.
  intros Hheld. induction hashes as [|h rest IH]; simpl.
  - exists false. unfold mbind, M_bind, Unlock. rewrite Hheld.
    split; [done|]. split; [done|]. by intros ?%Exists_nil.
  - unfold mbind, M_bind, gets, map_index.
    destruct (cache_pool up !! Hex h) as [ux|] eqn:Hh.
    + exists true. split; [done|]. split; [|done]. intros _. left. by exists ux.
    + destruct IH as (b & Hrun & Hb).
      exists b. split; [done|]. rewrite Hb, Exists_cons. split; [by right|].
      intros [[ux Hux]|?]; [|done]. unfold present in *. congruence.
Qed.

(** X6. With the mutex free, [Collides] answers true exactly when one of
    the ids is cached; it never changes the cache or the cached checksum,
    and when it answers false the pool is as it found it. *)
Theorem Collides_true_iff_some_cached hashes (up : UnspentPool) :
  mutex up = false →
  ∃ b up', Collides hashes up = Returns b up'
    ∧ (b = true ↔ Exists (present (cache_pool up)) hashes)
    ∧ cache_pool up' = cache_pool up
    ∧ cache_uxhash up' = cache_uxhash up
    ∧ (b = false → up' = up).
Proof.
  intros Hfree. unfold Collides, mbind, M_bind, Lock. rewrite Hfree.
  destruct (Collides_loop_result hashes (set_mutex true up) eq_refl)
    as (b & -> & Hb).
  exists b. eexists. split; [done|]. split; [done|].
  destruct b; simpl; split_and!; try done.
  intros _. by apply set_mutex_release.
Qed.

End QueriesTogether.

(** ** Writes through the transaction *)

Section StoreWrites.
Context `{Externals}.

(** One round of the loop of [deleteWithTx], read backwards. *)
Lemma deleteWithTx_loop_cons_inv tx id rest acc up tx' h up' :
  deleteWithTx_loop tx (id :: rest) acc up = Returns (tx', (h, None)) up' →
  (unspent_pool tx !! id = None
   ∧ deleteWithTx_loop tx rest acc up = Returns (tx', (h, None)) up')
  ∨ (∃ v ux,
       unspent_pool tx !! id = Some v ∧ DeserializeRaw v = inl ux
       ∧ writable tx = true
       ∧ deleteWithTx_loop
           (mkTx true (delete id (unspent_pool tx))
              (<[xorhashKey := Xor (getXorHash tx).1 (SnapshotHash ux)]>
                 (unspent_meta tx)))
           rest (Xor (getXorHash tx).1 (SnapshotHash ux)) up
         = Returns (tx', (h, None)) up').
Proof.
  intros Hrun.
  destruct (uxOuts_get_cases tx id)
    as [[e Hget]|[[Hget Hnone]|(v & ux & Hget & Hv & Hdec)]].
  - simpl in Hrun. rewrite Hget in Hrun.
    by apply ret_Returns in Hrun as [[=] _].
  - left. simpl in Hrun. rewrite Hget in Hrun. by simpl in Hrun.
  - right. exists v, ux. destruct (writable tx) eqn:Hw.
    + by rewrite (deleteWithTx_loop_step _ _ _ _ _ _ _ Hw Hv Hdec) in Hrun.
    + exfalso. simpl in Hrun. rewrite Hget in Hrun. simpl in Hrun.
      unfold getXorHash in Hrun.
      destruct (unspent_meta tx !! xorhashKey); run;
        unfold setXorHash, meta_Put in Hrun; rewrite Hw in Hrun;
        by injection Hrun.
Qed.

Lemma deleteWithTx_loop_effect hashes :
  ∀ tx acc up tx' h up',
    deleteWithTx_loop tx hashes acc up = Returns (tx', (h, None)) up' →
    up' = up
    ∧ (∀ id, id ∈ hashes → unspent_pool tx' !! id = None)
    ∧ (∀ id, id ∉ hashes → unspent_pool tx' !! id = unspent_pool tx !! id)
    ∧ ((Forall (λ id, unspent_pool tx !! id = None) hashes
        ∧ tx' = tx ∧ h = acc)
       ∨ (Exists (λ id, is_Some (unspent_pool tx !! id)) hashes
          ∧ h = (getXorHash tx').1)).
Proof.
  induction hashes as [|id rest IH]; intros tx acc up tx' h up' Hrun.
  - apply ret_Returns in Hrun as [[= <- <-] <-]. split_and!; try done.
    + by intros id ?%elem_of_nil.
    + by left.
  - apply deleteWithTx_loop_cons_inv in Hrun
      as [[Hnone Hrun]|(v & ux & Hv & Hdec & Hw & Hrun)];
      apply IH in Hrun as (-> & Hgone & Hkept & Hsum).
    + split_and!; [done| | |].
      * intros id' [->|Hin]%elem_of_cons; [|by apply Hgone].
        destruct (decide (id ∈ rest)); [by apply Hgone|].
        by rewrite Hkept.
      * intros id' [Hne Hout]%not_elem_of_cons. by apply Hkept.
      * destruct Hsum as [(Hall & -> & ->)|[Hex ->]].
        -- left. split_and!; [by constructor|done..].
        -- right. split; [by right|done].
    + split_and!; [done| | |].
      * intros id' [->|Hin]%elem_of_cons; [|by apply Hgone].
        destruct (decide (id ∈ rest)); [by apply Hgone|].
        rewrite Hkept by done. simpl. apply lookup_delete_eq.
      * intros id' [Hne Hout]%not_elem_of_cons. rewrite Hkept by done.
        simpl. by apply lookup_delete_ne.
      * right. split; [left; by exists v|].
        destruct Hsum as [(_ & -> & ->)|[_ ->]]; [|done].
        unfold getXorHash at 2. simpl. by rewrite lookup_insert_eq.
Qed.

(** X7. When [deleteWithTx] succeeds, none of the listed ids is left in
    the output region, every other id reads as before, and the pool is
    untouched. *)
Theorem deleteWithTx_removes_ids tx hashes up tx' h up' :
  deleteWithTx tx hashes up = Returns (tx', (h, None)) up' →
  up' = up
  ∧ (∀ id, id ∈ hashes → unspent_pool tx' !! id = None)
  ∧ (∀ id, id ∉ hashes → unspent_pool tx' !! id = unspent_pool tx !! id).
Proof.
  intros Hrun. apply deleteWithTx_loop_effect in Hrun as (? & ? & ? & _).
  done.
Qed.


(** X9. [addWithTx] turns down a record whose id is in the cache: it
    returns the insert-twice error naming the id and leaves the
    transaction and the pool as they were. *)
Theorem addWithTx_rejects_pooled_id tx ux up :
  mutex up = false →
  present (cache_pool up) (Hash ux) →
  addWithTx tx ux up
  = Returns (tx, (SHA256_zero, Some (insert_twice (Hash ux)))) up.
Proof.
  intros Hfree [x Hx]. unfold addWithTx, mbind, M_bind.
  rewrite Contains_free by done. unfold map_index. by rewrite Hx.
Qed.

Lemma getXorHash_written w pool meta x :
  getXorHash (mkTx w pool (<[xorhashKey := x]> meta)) = (x, None).
Proof. unfold getXorHash. simpl. by rewrite lookup_insert_eq. Qed.

Lemma Xor_twice (c s : SHA256) : Xor (Xor c s) s = c.
Proof. by rewrite (Xor_comm c s), Xor_cancel. Qed.

(** X10. Adding a record through a writable transaction and deleting its
    id again gives back the output region and the checksum as they were:
    the add files the encoded record under its id and XORs its snapshot
    hash into the checksum, the delete removes the record and XORs the
    same value out.  The record is new to cache and store and survives
    the codec. *)
Theorem add_then_delete_restores tx ux up :
  mutex up = false →
  writable tx = true →
  cache_pool up !! key ux = None →
  unspent_pool tx !! Hash ux = None →
  DeserializeRaw (Serialize ux) = inl ux →
  ∃ tx1 tx2,
    addWithTx tx ux up
    = Returns (tx1, (Xor (getXorHash tx).1 (SnapshotHash ux), None)) up
    ∧ unspent_pool tx1 !! Hash ux = Some (Serialize ux)
    ∧ getXorHash tx1 = (Xor (getXorHash tx).1 (SnapshotHash ux), None)
    ∧ deleteWithTx tx1 [Hash ux] up
      = Returns (tx2, ((getXorHash tx).1, None)) up
    ∧ unspent_pool tx2 = unspent_pool tx
    ∧ getXorHash tx2 = ((getXorHash tx).1, None).
Proof.
  intros Hfree Hw Hcache Hstore Hcodec.
  rewrite (addWithTx_accepts_uncached tx ux up Hfree Hw Hcache).
  eexists _, _. split; [done|]. split; [simpl; apply lookup_insert_eq|].
  split; [apply getXorHash_written|].
  unfold deleteWithTx.
  erewrite deleteWithTx_loop_step;
    [|done|simpl; apply lookup_insert_eq|exact Hcodec].
  rewrite !getXorHash_written. simpl. rewrite Xor_twice.
  split; [done|]. simpl. split; [by rewrite delete_insert_id|done].
Qed.

End StoreWrites.

(** ** When a block is applied, and what it leaves *)

Section Blocks.
Context `{Externals}.

Lemma decodable_delete pool id : decodable pool → decodable (delete id pool).
Proof. intros Hdec id' v [_ Hv]%lookup_delete_Some. by eapply Hdec. Qed.

Lemma decodable_insert pool id v :
  is_Some (decode v) → decodable pool → decodable (<[id := v]> pool).
Proof.
  intros Hv Hdec id' v'. destruct (decide (id = id')) as [->|Hne].
  - rewrite lookup_insert_eq. by intros [= <-].
  - rewrite lookup_insert_ne by done. apply Hdec.
Qed.

Lemma deleteWithTx_loop_succeeds hashes :
  ∀ tx acc up,
    writable tx = true → decodable (unspent_pool tx) →
    ∃ tx' h, deleteWithTx_loop tx hashes acc up = Returns (tx', (h, None)) up
             ∧ writable tx' = true ∧ decodable (unspent_pool tx').
Proof.
  induction hashes as [|id rest IH]; intros tx acc up Hw Hdec.
  - by eexists _, _.
  - destruct (unspent_pool tx !! id) as [v|] eqn:Hv.
    + destruct (Hdec _ _ Hv) as [ux Hux]. unfold decode in Hux.
      destruct (DeserializeRaw v) as [ux'|] eqn:Hraw; [|done].
      rewrite (deleteWithTx_loop_step _ _ _ _ _ _ _ Hw Hv Hraw).
      apply IH; [done|]. by apply decodable_delete.
    + simpl. unfold uxOuts_get. rewrite Hv. simpl. by apply IH.
Qed.

Lemma processBlock_add_succeeds uxs :
  ∀ tx acc up,
    mutex up = false → writable tx = true → decodable (unspent_pool tx) →
    Forall (λ ux, cache_pool up !! key ux = None) uxs →
    Forall (λ ux, is_Some (decode (Serialize ux))) uxs →
    ∃ tx' h, processBlock_add tx uxs acc up = Returns (tx', (h, None)) up
             ∧ writable tx' = true ∧ decodable (unspent_pool tx').
Proof.
  induction uxs as [|ux rest IH]; intros tx acc up Hfree Hw Hdec Hnew Henc.
  - by eexists _, _.
  - apply Forall_cons in Hnew as [Hnew Hnews].
    apply Forall_cons in Henc as [Henc Hencs].
    simpl. unfold mbind at 1, M_bind at 1.
    rewrite (addWithTx_accepts_uncached tx ux up Hfree Hw Hnew).
    apply IH; try done. simpl. by apply decodable_insert.
Qed.

Lemma getArray_succeeds hashes (up : UnspentPool) :
  Forall (present (cache_pool up)) hashes →
  ∃ uxs, getArray hashes up = Returns (uxs, None) up.
Proof.
  intros Hall. unfold getArray, gets.
  destruct (getArray_loop_spec (cache_pool up) hashes [])
    as [(uxs & _ & ->)|(l1 & h & l2 & -> & _ & Hh & _)]; [by eexists|].
  apply Forall_app in Hall as [_ [[ux Hux] _]%Forall_cons]. congruence.
Qed.

Lemma processBlock_loop_succeeds head txns :
  ∀ tx l up,
    mutex up = false → writable tx = true → decodable (unspent_pool tx) →
    Forall (present (cache_pool up)) (block_inputs txns) →
    Forall (λ ux, cache_pool up !! key ux = None) (block_outputs head txns) →
    Forall (λ ux, is_Some (decode (Serialize ux))) (block_outputs head txns) →
    ∃ tx' l', processBlock_loop head tx txns l up = Returns (tx', (l', None)) up.
Proof.
  induction txns as [|txn rest IH]; intros tx l up Hfree Hw Hdec Hins Hnew Henc.
  - by eexists _, _.
  - unfold block_inputs, block_outputs in Hins, Hnew, Henc. simpl in *.
    apply Forall_app in Hins as [Hins Hins'].
    apply Forall_app in Hnew as [Hnew Hnew'].
    apply Forall_app in Henc as [Henc Henc'].
    unfold mbind at 1, M_bind at 1.
    destruct (getArray_succeeds _ _ Hins) as [uxs ->].
    unfold mbind at 1, M_bind at 1, deleteWithTx.
    destruct (deleteWithTx_loop_succeeds (In txn) tx SHA256_zero up Hw Hdec)
      as (tx1 & h1 & -> & Hw1 & Hdec1).
    unfold mbind at 1, M_bind at 1.
    destruct (processBlock_add_succeeds (CreateUnspents head txn) tx1
                (uxHash l) up Hfree Hw1 Hdec1 Hnew Henc)
      as (tx2 & h2 & Hadd & Hw2 & Hdec2).
    simpl. rewrite Hadd. by apply IH.
Qed.

(** X11. With the mutex free, a writable transaction whose records all
    decode, and created outputs that survive encoding, [processBlock]
    succeeds exactly when every input id of the block is cached and no
    created output has a cached id. *)
Theorem processBlock_succeeds_iff b tx up :
  let ins := block_inputs (Transactions (BlockBody_ b)) in
  let outs := block_outputs (BlockHead b) (Transactions (BlockBody_ b)) in
  mutex up = false →
  writable tx = true →
  decodable (unspent_pool tx) →
  Forall (λ ux, is_Some (decode (Serialize ux))) outs →
  (∃ tx' rb up', processBlock b tx up = Returns (tx', (rb, None)) up')
  ↔ Forall (present (cache_pool up)) ins
    ∧ Forall (λ ux, cache_pool up !! key ux = None) outs.
Proof.
  intros ins outs Hfree Hw Hdec Henc. split.
  - intros (tx' & rb & up' & Hrun). apply processBlock_inv in Hrun.
    simpl in Hrun. destruct Hrun as (_ & dels & h & Hins & Hnew & _).
    split; [|done]. clear -Hins. fold ins in Hins.
    induction Hins as [|i ux ? ? Hi _ IH]; constructor; [by exists ux|done].
  - intros [Hins Hnew]. unfold processBlock.
    unfold mbind at 1, M_bind at 1, gets. unfold mbind at 1, M_bind at 1.
    destruct (processBlock_loop_succeeds (BlockHead b)
                (Transactions (BlockBody_ b)) tx (mkLocals [] [] SHA256_zero)
                up Hfree Hw Hdec Hins Hnew Henc) as (tx' & l' & ->).
    destruct up as [d m x mu]; simpl in Hfree; subst mu. run.
    by eexists _, _, _.
Qed.

(** X12. When a block is applied to a well-keyed cache that agrees with
    the transaction, and the created outputs have pairwise distinct ids
    and survive the codec, the transaction and the cache agree again
    afterwards: each id reads in the cache as the decoded record of the
    output region, and the checksum region holds the XOR of the snapshot
    hashes of the cached records. *)
Theorem apply_block_keeps_store_in_sync b tx up tx' rb up' :
  let outs := block_outputs (BlockHead b) (Transactions (BlockBody_ b)) in
  Inj (=) (=) Hex →
  cache_wf (cache_pool up) →
  writable tx = true →
  in_sync tx (cache_pool up) →
  NoDup (Hash <$> outs) →
  Forall (λ ux, DeserializeRaw (Serialize ux) = inl ux) outs →
  processBlock b tx up = Returns (tx', (rb, None)) up' →
  in_sync tx' (cache_pool up').
Proof.
  intros outs Hinj Hwf Hw Hsync Hnd Hcodec Hrun.
  apply processBlock_success in Hrun as (l & Hloop & Hfree & -> & _).
  destruct (λ H1 H2, processBlock_loop_sync Hinj (BlockHead b)
              (Transactions (BlockBody_ b)) tx
              (mkLocals [] [] SHA256_zero) up tx' l up Hcodec Hwf Hw Hsync
              H1 H2 Hloop)
    as (_ & Hsync' & _); [|done|done].
  simpl. unfold key. change (λ ux, Hex (Hash ux)) with (Hex ∘ Hash).
  rewrite list_fmap_compose. by apply NoDup_fmap_2.
Qed.

(** X13. Under the same conditions, when moreover the last transaction
    of the block creates an output, the cached checksum after the block
    is the XOR of [SnapshotHash] over what [GetAll] hands back. *)
Theorem apply_block_cached_checksum b tx up tx' rb up' :
  let txns := Transactions (BlockBody_ b) in
  let outs := block_outputs (BlockHead b) txns in
  Inj (=) (=) Hex →
  cache_wf (cache_pool up) →
  writable tx = true →
  in_sync tx (cache_pool up) →
  NoDup (Hash <$> outs) →
  Forall (λ ux, DeserializeRaw (Serialize ux) = inl ux) outs →
  ends_with_output (BlockHead b) txns →
  processBlock b tx up = Returns (tx', (rb, None)) up' →
  ∃ arr, GetAll up' = Returns (arr, None) up'
         ∧ GetUxHash up' = Returns (xor_all arr) up'.
Proof.
  intros txns outs Hinj Hwf Hw Hsync Hnd Hcodec Hlast Hrun.
  apply processBlock_success in Hrun as (l & Hloop & Hfree & -> & _).
  destruct (λ H1 H2, processBlock_loop_sync Hinj (BlockHead b) txns tx
              (mkLocals [] [] SHA256_zero) up tx' l up Hcodec Hwf Hw Hsync
              H1 H2 Hloop)
    as (_ & _ & Hh); [|done|].
  { simpl. unfold key. change (λ ux, Hex (Hash ux)) with (Hex ∘ Hash).
    rewrite list_fmap_compose. by apply NoDup_fmap_2. }
  rewrite GetAll_free, GetUxHash_free by done. simpl.
  eexists. split; [done|]. by rewrite (Hh Hlast).
Qed.

Lemma NoDup_fmap_elem_eq {A B} (f : A → B) (l : list A) x y :
  NoDup (f <$> l) → x ∈ l → y ∈ l → f x = f y → x = y.
Proof.
  induction l as [|z l IH]; intros Hnd Hx Hy Hf; [by apply elem_of_nil in Hx|].
  rewrite fmap_cons in Hnd. apply NoDup_cons in Hnd as [Hz Hnd].
  apply elem_of_cons in Hx as [->|Hx]; apply elem_of_cons in Hy as [->|Hy].
  - done.
  - exfalso. apply Hz. rewrite Hf. by apply list_elem_of_fmap_2.
  - exfalso. apply Hz. rewrite <- Hf. by apply list_elem_of_fmap_2.
  - by apply IH.
Qed.

(** X14. A block leaves alone what it does not name: after a successful
    [processBlock] on a well-keyed cache, [Get] on an id that is neither
    an input of the block nor the id of a created output answers as it
    did before; and when the created outputs have pairwise distinct ids,
    [Get] on the id of each of them finds that record. *)
Theorem apply_block_frame b tx up tx' rb up' :
  let ins := block_inputs (Transactions (BlockBody_ b)) in
  let outs := block_outputs (BlockHead b) (Transactions (BlockBody_ b)) in
  Inj (=) (=) Hex →
  cache_wf (cache_pool up) →
  processBlock b tx up = Returns (tx', (rb, None)) up' →
  (∀ id, id ∉ ins → id ∉ Hash <$> outs →
         returned (Get id up') = returned (Get id up))
  ∧ (NoDup (Hash <$> outs) →
     Forall (λ ux, Get (Hash ux) up' = Returns (ux, true) up') outs).
Proof.
  intros ins outs Hinj Hwf Hrun. apply processBlock_inv in Hrun; simpl in Hrun.
  destruct Hrun as (Hfree & dels & h & Hins & Hnew & _ & -> & _).
  fold ins in Hins. fold outs in Hnew. fold outs.
  destruct (fetched_own_key _ _ _ Hwf Hins) as [Hkeys Hown].
  assert (∀ l : list UxOut, key <$> l = Hex <$> (Hash <$> l)) as Hkey.
  { intros l. by rewrite <- list_fmap_compose. }
  split.
  - intros id Hin Hout. rewrite !Get_free by done. simpl. f_equal.
    unfold map_index.
    rewrite lookup_cache_add_notin, lookup_cache_delete, decide_False; [done| |].
    + rewrite Hkeys. by intros (i & ->%Hinj & ?)%list_elem_of_fmap.
    + rewrite Hkey. by intros (i & ->%Hinj & ?)%list_elem_of_fmap.
  - intros Hnd. apply Forall_forall. intros ux Hux.
    rewrite Get_free by done. simpl. unfold map_index.
    destruct (lookup_cache_add_in outs (cache_delete dels (cache_pool up))
                (key ux)) as (ux' & Hux' & Hk & Hlk).
    { by apply list_elem_of_fmap_2. }
    fold (key ux). rewrite Hlk.
    assert (ux' = ux) as ->; [|done].
    eapply (NoDup_fmap_elem_eq key); [|done..].
    rewrite Hkey. by apply NoDup_fmap_2.
Qed.

Lemma undo_after_success b tx up tx' rb up' :
  cache_wf (cache_pool up) →
  processBlock b tx up = Returns (tx', (rb, None)) up' →
  rb up' = Returns tt up.
Proof.
  intros Hwf Hrun. apply processBlock_inv in Hrun; simpl in Hrun.
  destruct Hrun as (Hfree & dels & h & Hins & Hnew & _ & -> & ->).
  destruct (fetched_own_key _ _ _ Hwf Hins) as [_ Hown].
  rewrite undo_runs, cache_undo by done.
  destruct up as [d m x mu]; simpl in *; by subst mu.
Qed.

(** X15. Undo closures nest: after two blocks applied one after the
    other to a well-keyed cache, running the closure of the second and
    then the closure of the first gives back the pool as it was before
    the first block. *)
Theorem nested_undo_restores b1 b2 tx up tx1 rb1 up1 tx2 rb2 up2 :
  cache_wf (cache_pool up) →
  processBlock b1 tx up = Returns (tx1, (rb1, None)) up1 →
  processBlock b2 tx1 up1 = Returns (tx2, (rb2, None)) up2 →
  rb2 up2 = Returns tt up1 ∧ rb1 up1 = Returns tt up.
Proof.
  intros Hwf Hrun1 Hrun2. split.
  - eapply undo_after_success; [|exact Hrun2].
    apply processBlock_inv in Hrun1; simpl in Hrun1.
    destruct Hrun1 as (_ & dels & h & _ & _ & _ & -> & _). simpl.
    by apply cache_wf_add, cache_wf_delete.
  - by eapply undo_after_success.
Qed.

End Blocks.

(** ** Building the pool *)

Section Building.
Context `{Externals}.

Lemma syncCache_ForEach_fails kvs :
  ∀ up, Exists (λ kv, decode kv.2 = None) kvs →
        ∃ k v e up',
          (k, v) ∈ kvs ∧ DeserializeRaw v = inr e
          ∧ syncCache_ForEach kvs up
            = Returns (Some ("load unspent outputs from db failed: " +:+ e)) up'.
Proof.
  induction kvs as [|[k v] rest IH]; intros up Hbad.
  - by apply Exists_nil in Hbad.
  - simpl. destruct (DeserializeRaw v) as [ux|e] eqn:Hv.
    + apply Exists_cons in Hbad as [Hbad|Hbad].
      { unfold decode in Hbad. simpl in Hbad. by rewrite Hv in Hbad. }
      run. destruct (IH (set_cache_pool (λ m, <[Hex k := ux]> m) up) Hbad)
        as (k' & v' & e & up' & Hin & He & Hrun).
      exists k', v', e, up'. split_and!; [by right|done..].
    + exists k, v, e, up. split_and!; [by left|done..].
Qed.

(** X16. On a database that opens, [NewUnspentPool] hands back a pool
    exactly when every record of the output region decodes; when one does
    not, it hands back no pool and the error of the scan, which carries
    the decoding error of a stored record. *)
Theorem NewUnspentPool_succeeds_iff d :
  db_opened d = true →
  ((∃ up, NewUnspentPool d = Returns (Some up, None) up)
   ↔ decodable (db_unspent_pool d))
  ∧ ((∃ id v, db_unspent_pool d !! id = Some v ∧ decode v = None) →
     ∃ id v e up',
       db_unspent_pool d !! id = Some v ∧ DeserializeRaw v = inr e
       ∧ NewUnspentPool d
         = Returns (None,
                    Some ("load unspent outputs from db failed: " +:+ e)) up').
Proof.
  intros Hopen. split; [split|].
  - intros [up Hnew] id v Hv. apply NewUnspentPool_inv in Hnew as [Hall _].
    rewrite Forall_forall in Hall.
    apply (Hall (id, v)). by apply elem_of_map_to_list.
  - intros Hdec. by apply NewUnspentPool_returns.
  - intros (id & v & Hv & Hbad).
    unfold NewUnspentPool, bucket_New. rewrite Hopen.
    unfold syncCache. unfold mbind at 1, M_bind at 1, gets. simpl.
    unfold mbind at 1, M_bind at 1.
    destruct (syncCache_ForEach_fails (map_to_list (db_unspent_pool d))
                (mkUnspentPool d ∅ SHA256_zero false))
      as (k' & v' & e & up' & Hin & He & ->).
    { apply Exists_exists. exists (id, v).
      split; [by apply elem_of_map_to_list|done]. }
    exists k', v', e, up'. split_and!; [by apply elem_of_map_to_list|done..].
Qed.

End Building.

(** ** The further properties on the small instance *)

Lemma run_plain_success :
  run_plain
  = Returns (outcome_tx run_plain, (outcome_rollback run_plain, None))
            (outcome_pool run_plain).
Proof. by_run. Qed.

Lemma demo_codec_AB :
  Forall (λ ux, demo_DeserializeRaw (demo_Serialize ux) = inl ux) [uxA; uxB].
Proof. repeat (constructor; [vm_compute; reflexivity|]). constructor. Qed.

Lemma demo_in_sync :
  in_sync (H:=demo) (demo_tx [uxA; uxB]) (cache_pool (demo_up [uxA; uxB])).
Proof.
  split; [|by_run]. apply demo_in_sync_store, demo_codec_AB.
Qed.

Lemma demo_tx_decodable uxs :
  Forall (λ ux, demo_DeserializeRaw (demo_Serialize ux) = inl ux) uxs →
  decodable (H:=demo) (unspent_pool (demo_tx uxs)).
Proof.
  intros Hcodec id v Hv. unfold demo_tx, demo_records, unspent_pool in Hv.
  apply elem_of_list_to_map_2, list_elem_of_fmap in Hv as (ux & [= -> ->] & Hux).
  rewrite Forall_forall in Hcodec. unfold decode.
  cbn [DeserializeRaw demo]. by rewrite (Hcodec _ Hux).
Qed.

Lemma demo_store_wf uxs :
  Forall (λ ux, demo_DeserializeRaw (demo_Serialize ux) = inl ux) uxs →
  store_wf (H:=demo) (db_unspent_pool (demo_db uxs)).
Proof.
  intros Hcodec id v Hv. unfold demo_db, demo_records, db_unspent_pool in Hv.
  apply elem_of_list_to_map_2, list_elem_of_fmap in Hv as (ux & [= -> ->] & Hux).
  rewrite Forall_forall in Hcodec. exists ux. by split; [apply Hcodec|].
Qed.

Lemma plain_outputs_codec :
  Forall (λ ux, demo_DeserializeRaw (demo_Serialize ux) = inl ux)
    (block_outputs (H:=demo) (BlockHead blk_plain)
       (Transactions (BlockBody_ blk_plain))).
Proof. repeat (constructor; [vm_compute; reflexivity|]). constructor. Qed.

Lemma plain_outputs_distinct :
  NoDup (demo_Hash <$> block_outputs (H:=demo) (BlockHead blk_plain)
                         (Transactions (BlockBody_ blk_plain))).
Proof. apply (bool_decide_unpack _). vm_compute. exact I. Qed.

Lemma Get_Contains_GetArray_agree_witness :
  mutex (demo_up [uxA; uxB]) = false
  ∧ ∃ ux ok,
      Get (H:=demo) idA (demo_up [uxA; uxB]) = Returns (ux, ok) (demo_up [uxA; uxB])
      ∧ Contains (H:=demo) idA (demo_up [uxA; uxB]) = Returns ok (demo_up [uxA; uxB])
      ∧ (ok = true →
         cache_pool (demo_up [uxA; uxB]) !! demo_Hex idA = Some ux
         ∧ GetArray (H:=demo) [idA] (demo_up [uxA; uxB])
           = Returns ([ux], None) (demo_up [uxA; uxB]))
      ∧ (ok = false →
         cache_pool (demo_up [uxA; uxB]) !! demo_Hex idA = None
         ∧ ux = UxOut_zero
         ∧ GetArray (H:=demo) [idA] (demo_up [uxA; uxB])
           = Returns ([], Some (not_exist (H:=demo) idA)) (demo_up [uxA; uxB])).
Proof.
  split; [reflexivity|].
  apply (Get_Contains_GetArray_agree (H:=demo)). reflexivity.
Defined.

Lemma Len_counts_GetAll_witness :
  mutex (demo_up [uxA; uxB]) = false
  ∧ ∃ arr, GetAll (demo_up [uxA; uxB]) = Returns (arr, None) (demo_up [uxA; uxB])
           ∧ Len (demo_up [uxA; uxB])
             = Returns (N.of_nat (length arr)) (demo_up [uxA; uxB]).
Proof.
  split; [reflexivity|]. apply Len_counts_GetAll. reflexivity.
Defined.

Lemma GetAll_lists_each_id_once_witness :
  mutex (demo_up [uxA; uxB]) = false
  ∧ cache_wf (H:=demo) (cache_pool (demo_up [uxA; uxB]))
  ∧ ∃ arr, GetAll (demo_up [uxA; uxB]) = Returns (arr, None) (demo_up [uxA; uxB])
           ∧ NoDup (demo_Hash <$> arr)
           ∧ ∀ ux, ux ∈ arr
                   ↔ Get (H:=demo) (demo_Hash ux) (demo_up [uxA; uxB])
                     = Returns (ux, true) (demo_up [uxA; uxB]).
Proof.
  split; [reflexivity|]. split; [apply demo_up_wf|].
  apply (GetAll_lists_each_id_once (H:=demo)); [reflexivity|apply demo_up_wf].
Defined.



Lemma Collides_true_iff_some_cached_witness :
  mutex (demo_up [uxA; uxB]) = false
  ∧ ∃ b up', Collides (H:=demo) [99%N; idA] (demo_up [uxA; uxB]) = Returns b up'
      ∧ (b = true
         ↔ Exists (present (H:=demo) (cache_pool (demo_up [uxA; uxB]))) [99%N; idA])
      ∧ cache_pool up' = cache_pool (demo_up [uxA; uxB])
      ∧ cache_uxhash up' = cache_uxhash (demo_up [uxA; uxB])
      ∧ (b = false → up' = demo_up [uxA; uxB]).
Proof.
  split; [reflexivity|].
  apply (Collides_true_iff_some_cached (H:=demo)). reflexivity.
Defined.

Lemma del_run_success :
  del_run = Returns (outcome_tx del_run, (outcome_hash del_run, None))
                    (outcome_pool del_run).
Proof. by_run. Qed.

Lemma deleteWithTx_removes_ids_witness :
  del_run = Returns (outcome_tx del_run, (outcome_hash del_run, None))
                    (outcome_pool del_run)
  ∧ outcome_pool del_run = demo_up [uxA; uxB]
  ∧ (∀ id, id ∈ [idA; 99%N] → unspent_pool (outcome_tx del_run) !! id = None)
  ∧ (∀ id, id ∉ [idA; 99%N] →
           unspent_pool (outcome_tx del_run) !! id
           = unspent_pool (demo_tx [uxA; uxB]) !! id).
Proof.
  split; [exact del_run_success|].
  exact (deleteWithTx_removes_ids (H:=demo) _ _ _ _ _ _ del_run_success).
Defined.


Lemma addWithTx_rejects_pooled_id_witness :
  mutex (demo_up [uxA; uxB]) = false
  ∧ present (H:=demo) (cache_pool (demo_up [uxA; uxB])) (demo_Hash uxA)
  ∧ addWithTx (H:=demo) (demo_tx [uxA; uxB]) uxA (demo_up [uxA; uxB])
    = Returns (demo_tx [uxA; uxB],
               (SHA256_zero, Some (insert_twice (H:=demo) (demo_Hash uxA))))
              (demo_up [uxA; uxB]).
Proof.
  assert (present (H:=demo) (cache_pool (demo_up [uxA; uxB])) (demo_Hash uxA))
    as Hin by (by exists uxA).
  split; [reflexivity|]. split; [exact Hin|].
  exact (addWithTx_rejects_pooled_id (H:=demo) (demo_tx [uxA; uxB]) uxA
           (demo_up [uxA; uxB]) eq_refl Hin).
Defined.

Lemma add_then_delete_restores_witness :
  mutex (demo_up [uxA; uxB]) = false
  ∧ writable (demo_tx [uxA; uxB]) = true
  ∧ cache_pool (demo_up [uxA; uxB]) !! key (H:=demo) ux_twin = None
  ∧ unspent_pool (demo_tx [uxA; uxB]) !! demo_Hash ux_twin = None
  ∧ demo_DeserializeRaw (demo_Serialize ux_twin) = inl ux_twin
  ∧ ∃ tx1 tx2,
      addWithTx (H:=demo) (demo_tx [uxA; uxB]) ux_twin (demo_up [uxA; uxB])
      = Returns (tx1, (Xor (getXorHash (demo_tx [uxA; uxB])).1
                           (demo_SnapshotHash ux_twin), None))
                (demo_up [uxA; uxB])
      ∧ unspent_pool tx1 !! demo_Hash ux_twin = Some (demo_Serialize ux_twin)
      ∧ getXorHash tx1
        = (Xor (getXorHash (demo_tx [uxA; uxB])).1 (demo_SnapshotHash ux_twin),
           None)
      ∧ deleteWithTx (H:=demo) tx1 [demo_Hash ux_twin] (demo_up [uxA; uxB])
        = Returns (tx2, ((getXorHash (demo_tx [uxA; uxB])).1, None))
                  (demo_up [uxA; uxB])
      ∧ unspent_pool tx2 = unspent_pool (demo_tx [uxA; uxB])
      ∧ getXorHash tx2 = ((getXorHash (demo_tx [uxA; uxB])).1, None).
Proof.
  assert (cache_pool (demo_up [uxA; uxB]) !! key (H:=demo) ux_twin = None)
    as Hc by by_run.
  assert (unspent_pool (demo_tx [uxA; uxB]) !! demo_Hash ux_twin = None)
    as Hs by by_run.
  assert (demo_DeserializeRaw (demo_Serialize ux_twin) = inl ux_twin)
    as Hcodec by by_run.
  split; [reflexivity|]. split; [reflexivity|]. split; [exact Hc|].
  split; [exact Hs|]. split; [exact Hcodec|].
  exact (add_then_delete_restores (H:=demo) (demo_tx [uxA; uxB]) ux_twin
           (demo_up [uxA; uxB]) eq_refl eq_refl Hc Hs Hcodec).
Defined.

Lemma processBlock_succeeds_iff_witness :
  mutex (demo_up [uxA; uxB]) = false
  ∧ writable (demo_tx [uxA; uxB]) = true
  ∧ decodable (H:=demo) (unspent_pool (demo_tx [uxA; uxB]))
  ∧ Forall (λ ux, is_Some (decode (H:=demo) (demo_Serialize ux)))
      (block_outputs (H:=demo) (BlockHead blk_plain)
         (Transactions (BlockBody_ blk_plain)))
  ∧ ((∃ tx' rb up',
        processBlock (H:=demo) blk_plain (demo_tx [uxA; uxB]) (demo_up [uxA; uxB])
        = Returns (tx', (rb, None)) up')
     ↔ Forall (present (H:=demo) (cache_pool (demo_up [uxA; uxB])))
         (block_inputs (Transactions (BlockBody_ blk_plain)))
       ∧ Forall (λ ux, cache_pool (demo_up [uxA; uxB]) !! key (H:=demo) ux = None)
           (block_outputs (H:=demo) (BlockHead blk_plain)
              (Transactions (BlockBody_ blk_plain)))).
Proof.
  assert (Forall (λ ux, is_Some (decode (H:=demo) (demo_Serialize ux)))
            (block_outputs (H:=demo) (BlockHead blk_plain)
               (Transactions (BlockBody_ blk_plain)))) as Henc.
  { repeat (constructor; [vm_compute; by eexists|]). constructor. }
  split; [reflexivity|]. split; [reflexivity|].
  split; [exact (demo_tx_decodable _ demo_codec_AB)|]. split; [exact Henc|].
  exact (processBlock_succeeds_iff (H:=demo) blk_plain (demo_tx [uxA; uxB])
           (demo_up [uxA; uxB]) eq_refl eq_refl
           (demo_tx_decodable _ demo_codec_AB) Henc).
Defined.

Lemma apply_block_keeps_store_in_sync_witness :
  Inj (=) (=) demo_Hex
  ∧ cache_wf (H:=demo) (cache_pool (demo_up [uxA; uxB]))
  ∧ writable (demo_tx [uxA; uxB]) = true
  ∧ in_sync (H:=demo) (demo_tx [uxA; uxB]) (cache_pool (demo_up [uxA; uxB]))
  ∧ NoDup (demo_Hash <$> block_outputs (H:=demo) (BlockHead blk_plain)
                           (Transactions (BlockBody_ blk_plain)))
  ∧ Forall (λ ux, demo_DeserializeRaw (demo_Serialize ux) = inl ux)
      (block_outputs (H:=demo) (BlockHead blk_plain)
         (Transactions (BlockBody_ blk_plain)))
  ∧ run_plain
    = Returns (outcome_tx run_plain, (outcome_rollback run_plain, None))
              (outcome_pool run_plain)
  ∧ in_sync (H:=demo) (outcome_tx run_plain) (cache_pool (outcome_pool run_plain)).
Proof.
  split; [exact demo_Hex_inj|]. split; [apply demo_up_wf|].
  split; [reflexivity|]. split; [exact demo_in_sync|].
  split; [exact plain_outputs_distinct|]. split; [exact plain_outputs_codec|].
  split; [exact run_plain_success|].
  exact (apply_block_keeps_store_in_sync (H:=demo) blk_plain
           (demo_tx [uxA; uxB]) (demo_up [uxA; uxB]) _ _ _
           demo_Hex_inj (demo_up_wf _) eq_refl demo_in_sync
           plain_outputs_distinct plain_outputs_codec run_plain_success).
Defined.

Lemma plain_ends_with_output :
  ends_with_output (H:=demo) (BlockHead blk_plain)
    (Transactions (BlockBody_ blk_plain)).
Proof. vm_compute. discriminate. Qed.

Lemma apply_block_cached_checksum_witness :
  Inj (=) (=) demo_Hex
  ∧ cache_wf (H:=demo) (cache_pool (demo_up [uxA; uxB]))
  ∧ writable (demo_tx [uxA; uxB]) = true
  ∧ in_sync (H:=demo) (demo_tx [uxA; uxB]) (cache_pool (demo_up [uxA; uxB]))
  ∧ NoDup (demo_Hash <$> block_outputs (H:=demo) (BlockHead blk_plain)
                           (Transactions (BlockBody_ blk_plain)))
  ∧ Forall (λ ux, demo_DeserializeRaw (demo_Serialize ux) = inl ux)
      (block_outputs (H:=demo) (BlockHead blk_plain)
         (Transactions (BlockBody_ blk_plain)))
  ∧ ends_with_output (H:=demo) (BlockHead blk_plain)
      (Transactions (BlockBody_ blk_plain))
  ∧ run_plain
    = Returns (outcome_tx run_plain, (outcome_rollback run_plain, None))
              (outcome_pool run_plain)
  ∧ ∃ arr, GetAll (outcome_pool run_plain) = Returns (arr, None) (outcome_pool run_plain)
           ∧ GetUxHash (outcome_pool run_plain)
             = Returns (xor_all (H:=demo) arr) (outcome_pool run_plain).
Proof.
  split; [exact demo_Hex_inj|]. split; [apply demo_up_wf|].
  split; [reflexivity|]. split; [exact demo_in_sync|].
  split; [exact plain_outputs_distinct|]. split; [exact plain_outputs_codec|].
  split; [exact plain_ends_with_output|]. split; [exact run_plain_success|].
  exact (apply_block_cached_checksum (H:=demo) blk_plain
           (demo_tx [uxA; uxB]) (demo_up [uxA; uxB]) _ _ _
           demo_Hex_inj (demo_up_wf _) eq_refl demo_in_sync
           plain_outputs_distinct plain_outputs_codec plain_ends_with_output
           run_plain_success).
Defined.

Lemma apply_block_frame_witness :
  Inj (=) (=) demo_Hex
  ∧ cache_wf (H:=demo) (cache_pool (demo_up [uxA; uxB]))
  ∧ run_plain
    = Returns (outcome_tx run_plain, (outcome_rollback run_plain, None))
              (outcome_pool run_plain)
  ∧ (∀ id, id ∉ block_inputs (Transactions (BlockBody_ blk_plain)) →
           id ∉ demo_Hash <$> block_outputs (H:=demo) (BlockHead blk_plain)
                               (Transactions (BlockBody_ blk_plain)) →
           returned (Get (H:=demo) id (outcome_pool run_plain))
           = returned (Get (H:=demo) id (demo_up [uxA; uxB])))
  ∧ (NoDup (demo_Hash <$> block_outputs (H:=demo) (BlockHead blk_plain)
                            (Transactions (BlockBody_ blk_plain))) →
     Forall (λ ux, Get (H:=demo) (demo_Hash ux) (outcome_pool run_plain)
                   = Returns (ux, true) (outcome_pool run_plain))
       (block_outputs (H:=demo) (BlockHead blk_plain)
          (Transactions (BlockBody_ blk_plain)))).
Proof.
  split; [exact demo_Hex_inj|]. split; [apply demo_up_wf|].
  split; [exact run_plain_success|].
  exact (apply_block_frame (H:=demo) blk_plain (demo_tx [uxA; uxB])
           (demo_up [uxA; uxB]) _ _ _ demo_Hex_inj (demo_up_wf _)
           run_plain_success).
Defined.

Lemma run_second_success :
  run_second
  = Returns (outcome_tx run_second, (outcome_rollback run_second, None))
            (outcome_pool run_second).
Proof. by_run. Qed.

Lemma nested_undo_restores_witness :
  cache_wf (H:=demo) (cache_pool (demo_up [uxA; uxB]))
  ∧ run_plain
    = Returns (outcome_tx run_plain, (outcome_rollback run_plain, None))
              (outcome_pool run_plain)
  ∧ run_second
    = Returns (outcome_tx run_second, (outcome_rollback run_second, None))
              (outcome_pool run_second)
  ∧ outcome_rollback run_second (outcome_pool run_second)
    = Returns tt (outcome_pool run_plain)
  ∧ outcome_rollback run_plain (outcome_pool run_plain)
    = Returns tt (demo_up [uxA; uxB]).
Proof.
  split; [apply demo_up_wf|]. split; [exact run_plain_success|].
  split; [exact run_second_success|].
  exact (nested_undo_restores (H:=demo) blk_plain blk_second
           (demo_tx [uxA; uxB]) (demo_up [uxA; uxB]) _ _ _ _ _ _
           (demo_up_wf _) run_plain_success run_second_success).
Defined.

Lemma NewUnspentPool_succeeds_iff_witness :
  db_opened demo_db_bad = true
  ∧ ((∃ up, NewUnspentPool (H:=demo) demo_db_bad = Returns (Some up, None) up)
     ↔ decodable (H:=demo) (db_unspent_pool demo_db_bad))
  ∧ ((∃ id v, db_unspent_pool demo_db_bad !! id = Some v
              ∧ decode (H:=demo) v = None) →
     ∃ id v e up',
       db_unspent_pool demo_db_bad !! id = Some v
       ∧ demo_DeserializeRaw v = inr e
       ∧ NewUnspentPool (H:=demo) demo_db_bad
         = Returns (None,
                    Some ("load unspent outputs from db failed: " +:+ e)) up').
Proof.
  split; [reflexivity|].
  apply (NewUnspentPool_succeeds_iff (H:=demo)). reflexivity.
Defined.

Lemma built_success :
  built = Returns (Some (outcome_pool built), None) (outcome_pool built).
Proof. by_run. Qed.

Lemma NewUnspentPool_wf_witness :
  Inj (=) (=) demo_Hex
  ∧ store_wf (H:=demo) (db_unspent_pool (demo_db [uxA; uxB]))
  ∧ built = Returns (Some (outcome_pool built), None) (outcome_pool built)
  ∧ cache_wf (H:=demo) (cache_pool (outcome_pool built)).
Proof.
  split; [exact demo_Hex_inj|].
  split; [exact (demo_store_wf _ demo_codec_AB)|].
  split; [exact built_success|].
  exact (NewUnspentPool_wf (H:=demo) demo_Hex_inj (demo_db [uxA; uxB]) _ _
           (demo_store_wf _ demo_codec_AB) built_success).
Defined.

Lemma processBlock_wf_witness :
  cache_wf (H:=demo) (cache_pool (demo_up [uxA; uxB]))
  ∧ run_plain
    = Returns (outcome_tx run_plain, (outcome_rollback run_plain, None))
              (outcome_pool run_plain)
  ∧ cache_wf (H:=demo) (cache_pool (outcome_pool run_plain)).
Proof.
  split; [apply demo_up_wf|]. split; [exact run_plain_success|].
  exact (processBlock_wf (H:=demo) blk_plain (demo_tx [uxA; uxB])
           (demo_up [uxA; uxB]) _ _ _ _ (demo_up_wf _) run_plain_success).
Defined.

Lemma run_spend_only_success :
  run_spend_only
  = Returns (outcome_tx run_spend_only, (outcome_rollback run_spend_only, None))
            (outcome_pool run_spend_only).
Proof. by_run. Qed.

Lemma apply_block_without_outputs_witness :
  block_outputs (H:=demo) (BlockHead blk_spend_only)
    (Transactions (BlockBody_ blk_spend_only)) = []
  ∧ run_spend_only
    = Returns (outcome_tx run_spend_only, (outcome_rollback run_spend_only, None))
              (outcome_pool run_spend_only)
  ∧ GetUxHash (outcome_pool run_spend_only)
    = Returns SHA256_zero (outcome_pool run_spend_only).
Proof.
  split; [reflexivity|]. split; [exact run_spend_only_success|].
  exact (apply_block_without_outputs (H:=demo) blk_spend_only
           (demo_tx [uxA; uxB]) (demo_up [uxA; uxB]) _ _ _ eq_refl
           run_spend_only_success).
Defined.

Lemma queries_release_mutex_witness :
  mutex (demo_up [uxA; uxB]) = false
  ∧ outcome_pool (Get (H:=demo) idA (demo_up [uxA; uxB])) = demo_up [uxA; uxB]
  ∧ outcome_pool (GetArray (H:=demo) [idA] (demo_up [uxA; uxB])) = demo_up [uxA; uxB]
  ∧ outcome_pool (GetAll (demo_up [uxA; uxB])) = demo_up [uxA; uxB]
  ∧ outcome_pool (Len (demo_up [uxA; uxB])) = demo_up [uxA; uxB]
  ∧ outcome_pool (Contains (H:=demo) idA (demo_up [uxA; uxB])) = demo_up [uxA; uxB]
  ∧ outcome_pool (GetUnspentsOfAddr 7%N (demo_up [uxA; uxB])) = demo_up [uxA; uxB]
  ∧ outcome_pool (GetUnspentsOfAddrs [7%N] (demo_up [uxA; uxB])) = demo_up [uxA; uxB]
  ∧ outcome_pool (GetUxHash (demo_up [uxA; uxB])) = demo_up [uxA; uxB].
Proof.
  split; [reflexivity|].
  apply (queries_release_mutex (H:=demo)). reflexivity.
Defined.

Lemma processBlock_returns_witness :
  mutex (demo_up [uxA; uxB]) = false
  ∧ ∃ tx' rb e up',
      processBlock (H:=demo) blk_twin_outputs (demo_tx [uxA; uxB])
        (demo_up [uxA; uxB])
      = Returns (tx', (rb, e)) up'.
Proof.
  split; [reflexivity|].
  apply (processBlock_returns (H:=demo)). reflexivity.
Defined.
